(** * steam-download-monitor: a shallow embedding of [steam_download_monitor.py]

    The development follows the Python module function by function.

    - A Python [str] is a list of Unicode code points ([str := list N]); the
      two library predicates the program relies on, [str.isdigit] and the
      regular-expression class [\s], are given by their code-point tables.
    - The file system is an explicit snapshot value ([filesystem]), a record
      of what each [pathlib]/[os] call answers; calls that can raise return a
      [result].
    - Python [int]s are [Z]; Python [float]s (modification times, the clock,
      the rate) are idealised as exact rationals [Q].
    - [dict] is a [gmap], the [set] of [get_libraries] a [gset].

    A snapshot does not change during one call of a function of the module;
    each iteration of the loop of [main] has a snapshot of its own.  What
    [game_name] and [dir_size] do on a disk that is not at rest -- an
    existence test that raises, a file deleted between two calls -- is in
    the module [Live], where every call is an observation of its own.  The
    registry lookup of [get_steam_path] and the formatting of [fmt] are
    outside the development: [main] is given the root that was found, and an
    iteration reports the rate itself. *)

From Stdlib Require Import ZArith QArith Qminmax String Ascii.
From stdpp Require Import gmap list.

Local Open Scope Z_scope.

(** ** Python strings *)

Definition str := list N.

(** An ASCII literal of the source, as a Python string. *)
Definition py (s : string) : str := map N_of_ascii (list_ascii_of_string s).

Definition quote : N := 34.      (* the double-quote character *)
Definition backslash : N := 92.

Definition in_ranges (rs : list (N * N)) (c : N) : bool :=
  existsb (fun r => (fst r <=? c)%N && (c <=? snd r)%N) rs.

(** Code points [c] with [chr(c).isspace()], which is also the class [\s] of
    [re] on a [str] pattern (Unicode database 14.0). *)
Definition space_ranges : list (N * N) :=
  [ (9, 13); (28, 32); (133, 133); (160, 160); (5760, 5760); (8192, 8202);
    (8232, 8233); (8239, 8239); (8287, 8287); (12288, 12288) ]%N.

Definition is_space (c : N) : bool := in_ranges space_ranges c.

(** Code points [c] with [chr(c).isdigit()]: the decimal digits of every
    script together with the characters of numeric type Digit, such as the
    superscript and circled digits (Unicode database 14.0). *)
Definition digit_ranges : list (N * N) :=
  [ (48, 57); (178, 179); (185, 185); (1632, 1641); (1776, 1785);
    (1984, 1993); (2406, 2415); (2534, 2543); (2662, 2671); (2790, 2799);
    (2918, 2927); (3046, 3055); (3174, 3183); (3302, 3311); (3430, 3439);
    (3558, 3567); (3664, 3673); (3792, 3801); (3872, 3881); (4160, 4169);
    (4240, 4249); (4969, 4977); (6112, 6121); (6160, 6169); (6470, 6479);
    (6608, 6618); (6784, 6793); (6800, 6809); (6992, 7001); (7088, 7097);
    (7232, 7241); (7248, 7257); (8304, 8304); (8308, 8313); (8320, 8329);
    (9312, 9320); (9332, 9340); (9352, 9360); (9450, 9450); (9461, 9469);
    (9471, 9471); (10102, 10110); (10112, 10120); (10122, 10130);
    (42528, 42537); (43216, 43225); (43264, 43273); (43472, 43481);
    (43504, 43513); (43600, 43609); (44016, 44025); (65296, 65305);
    (66720, 66729); (68160, 68163); (68912, 68921); (69216, 69224);
    (69714, 69722); (69734, 69743); (69872, 69881); (69942, 69951);
    (70096, 70105); (70384, 70393); (70736, 70745); (70864, 70873);
    (71248, 71257); (71360, 71369); (71472, 71481); (71904, 71913);
    (72016, 72025); (72784, 72793); (73040, 73049); (73120, 73129);
    (92768, 92777); (92864, 92873); (93008, 93017); (120782, 120831);
    (123200, 123209); (123632, 123641); (125264, 125273); (127232, 127242);
    (130032, 130041) ]%N.

Definition is_digit_char (c : N) : bool := in_ranges digit_ranges c.

(** [s.isdigit()]: at least one character, and every character a digit. *)
Definition isdigit (s : str) : bool :=
  match s with
  | [] => false
  | _ => forallb is_digit_char s
  end.

(** The decimal digits [0] to [9]. *)
Definition is_decimal_digit (c : N) : bool := (48 <=? c)%N && (c <=? 57)%N.

Definition all_decimal_digits (s : str) : bool :=
  match s with
  | [] => false
  | _ => forallb is_decimal_digit s
  end.

(** ** Exceptions *)

Inductive exn := OSError | TypeError.

Inductive result (A : Type) :=
| Ok (a : A)
| Raise (e : exn).
Arguments Ok {A} a.
Arguments Raise {A} e.

#[export] Instance result_ret : MRet result := fun A a => Ok a.
#[export] Instance result_bind : MBind result := fun A B f r =>
  match r with
  | Ok a => f a
  | Raise e => Raise e
  end.

(** ** The regular expression [KV_RE]

    The pattern of [KV_RE] reads: a double quote; group 1, one or more
    characters other than a double quote (greedy); a double quote; zero or
    more white-space characters (greedy); a double quote; group 2, zero or
    more characters other than a double quote (greedy); a double quote.  The
    definition below has one combinator per piece, in this order.  The
    matcher is the
    backtracking one of [re]: each piece of the pattern is a combinator taking
    the matcher of the rest of the pattern as its continuation, and a greedy
    repetition tries the longest run first and gives characters back when the
    continuation fails. *)

Module Re.
Section Combinators.
Context {A : Type}.

(** A literal character. *)
Definition lit (c : N) (k : str -> option A) (s : str) : option A :=
  match s with
  | x :: s' => if (x =? c)%N then k s' else None
  | [] => None
  end.

(** [cls*], greedy, capturing: [acc] is the text matched so far. *)
Fixpoint star_from (cls : N -> bool) (k : str -> str -> option A)
    (acc s : str) : option A :=
  match s with
  | c :: s' =>
      if cls c then
        match star_from cls k (acc ++ [c]) s' with
        | Some r => Some r
        | None => k acc s
        end
      else k acc s
  | [] => k acc s
  end.

Definition star (cls : N -> bool) (k : str -> str -> option A) : str -> option A :=
  star_from cls k [].

(** [cls+]: one character of the class, then [cls*]. *)
Definition plus (cls : N -> bool) (k : str -> str -> option A) (s : str) : option A :=
  match s with
  | c :: s' => if cls c then star_from cls k [c] s' else None
  | [] => None
  end.
End Combinators.
End Re.

Definition not_quote (c : N) : bool := negb (c =? quote)%N.

(** A match of [KV_RE] anchored at the start of [s]: the two groups and the
    text after the match. *)
Definition KV_RE_match (s : str) : option (str * str * str) :=
  Re.lit quote
    (Re.plus not_quote (fun key =>
      Re.lit quote
        (Re.star is_space (fun _ =>
          Re.lit quote
            (Re.star not_quote (fun val =>
              Re.lit quote (fun rest => Some (key, val, rest)))))))) s.

(** [KV_RE.findall(text)]: scan from the left; at a match, report the two
    groups and resume after it, otherwise move one character on.  A match of
    [KV_RE] is never empty, so each step consumes input and [fuel] above the
    length of the text is never exhausted. *)
Fixpoint findall_from (fuel : nat) (s : str) : list (str * str) :=
  match fuel with
  | O => []
  | S fuel' =>
      match KV_RE_match s with
      | Some (key, val, rest) => (key, val) :: findall_from fuel' rest
      | None =>
          match s with
          | [] => []
          | _ :: s' => findall_from fuel' s'
          end
      end
  end.

Definition findall (text : str) : list (str * str) :=
  findall_from (S (length text)) text.

(** [dict(pairs)]: the pairs are inserted from left to right, so a later pair
    overwrites an earlier one with the same key. *)
Definition dict (pairs : list (str * str)) : gmap str str :=
  foldl (fun m kv => <[kv.1 := kv.2]> m) ∅ pairs.

(** ** Paths and the file system

    A [Path] is kept as the string it was built from; [p </> c] is the path
    [p / c] of [pathlib] for a relative component [c].  Which spellings name
    the same directory is the business of [fs_resolve] alone. *)

Definition path := str.

Definition joinpath (p : path) (c : str) : path := p ++ backslash :: c.
Infix "</>" := joinpath (at level 40, left associativity).

(** [Path(val)]; the empty string is the current directory. *)
Definition Path (val : str) : path :=
  match val with
  | [] => py "."
  | _ => val
  end.

(** What [os.stat] reports, as far as the program looks. *)
Record stat_result := {
  st_isdir : bool;   (* S_ISDIR(st_mode) *)
  st_size : Z;
  st_mtime : Q
}.

(** The directory tree [os.walk] enumerates below a directory: the names of
    the non-directory entries, and the subdirectories it descends into.  The
    induction principle for it, with a hypothesis for every subtree, is
    [dirtree_nested_ind] below. *)
#[local] Unset Elimination Schemes.
Inductive dirtree :=
| DirNode (files : list str) (subdirs : list (str * dirtree)).
#[local] Set Elimination Schemes.

(** A file-system snapshot.  [Raise] stands for the [OSError] the call
    raises.  [fs_walk_tree] is what the traversal of [os.walk] finds, a
    separate and earlier observation than the [fs_stat] of the files in it:
    a file may be listed in the tree and be gone when it is queried. *)
Record filesystem := {
  fs_stat : path -> result stat_result;       (* Path.stat() *)
  fs_read_text : path -> result str;          (* Path.read_text(encoding="utf-8", errors="ignore") *)
  fs_iterdir : path -> result (list str);     (* names of the entries of Path.iterdir() *)
  fs_resolve : path -> path;                  (* Path.resolve() *)
  fs_walk_tree : path -> option dirtree       (* the tree below the top of os.walk, None when it cannot be listed *)
}.

(** [Path.exists()] and [Path.is_dir()] call [stat] and answer [False] when
    it fails with an error they ignore (no such file, not a directory).  A
    [filesystem] is a disk at rest: [stat] fails on it in no other way, and
    the calls on one path agree.  The errors these calls raise again (access
    denied, a name too long), and two calls on one path that disagree because
    the tree is being written, are in [Live] below. *)
Definition exists_ (fs : filesystem) (p : path) : bool :=
  match fs_stat fs p with
  | Ok _ => true
  | Raise _ => false
  end.

Definition is_dir (fs : filesystem) (p : path) : bool :=
  match fs_stat fs p with
  | Ok st => st_isdir st
  | Raise _ => false
  end.

(** A [for] loop whose body may raise. *)
Fixpoint foldM {A B : Type} (f : B -> A -> result B) (b : B) (l : list A) : result B :=
  match l with
  | [] => Ok b
  | a :: l' => b' ← f b a; foldM f b' l'
  end.

(** ** [parse_kv] *)

Definition parse_kv (fs : filesystem) (p : path) : gmap str str :=
  match fs_read_text fs p with
  | Ok text => dict (findall text)
  | Raise _ => ∅
  end.

(** ** [get_libraries] *)

(** [vdf = steam_root / "steamapps" / "libraryfolders.vdf"]. *)
Definition registry (steam_root : path) : path :=
  steam_root </> py "steamapps" </> py "libraryfolders.vdf".

Definition get_libraries (fs : filesystem) (steam_root : path) : result (list path) :=
  let libs := [steam_root] in
  let vdf := registry steam_root in
  libs ← (if exists_ fs vdf then
            text ← fs_read_text fs vdf;
            mret (foldl (fun libs kv =>
                           let p := Path kv.2 in
                           if exists_ fs p then libs ++ [p] else libs)
                        libs (findall text))
          else mret libs);
  mret (elements (list_to_set (fs_resolve fs <$> libs) : gset path)).

(** ** [find_active_download] *)

Definition Qltb (x y : Q) : bool := (Qnum x * QDen y <? Qnum y * QDen x)%Z.

Definition candidate : Type := Q * str * path.   (* (mtime, d.name, d) *)

(** The body of the inner loop, for the entry [name] of [droot]. *)
Definition consider (fs : filesystem) (droot : path)
    (latest : option candidate) (name : str) : result (option candidate) :=
  let d := droot </> name in
  if is_dir fs d && isdigit name then
    st ← fs_stat fs d;
    let mtime := st_mtime st in
    match latest with
    | None => mret (Some (mtime, name, d))
    | Some (m, _, _) =>
        if Qltb m mtime then mret (Some (mtime, name, d)) else mret latest
    end
  else mret latest.

(** [droot = lib / "steamapps" / "downloading"]. *)
Definition downloading (lib : path) : path :=
  lib </> py "steamapps" </> py "downloading".

(** The body of the outer loop, for the library [lib]. *)
Definition scan_library (fs : filesystem) (latest : option candidate)
    (lib : path) : result (option candidate) :=
  let droot := downloading lib in
  if negb (exists_ fs droot) then mret latest
  else names ← fs_iterdir fs droot; foldM (consider fs droot) latest names.

(** The result [None] stands for the pair [(None, None)] of the source, and
    [Some (name, d)] for [latest[1:]]. *)
Definition find_active_download (fs : filesystem) (libs : list path)
    : result (option (str * path)) :=
  latest ← foldM (scan_library fs) None libs;
  mret (match latest with
        | Some (_, name, d) => Some (name, d)
        | None => None
        end).

(** ** [game_name] *)

Definition fallback_name (appid : str) : str := py "AppID " ++ appid.

(** [mf = lib / "steamapps" / f"appmanifest_{appid}.acf"]. *)
Definition manifest (lib : path) (appid : str) : path :=
  lib </> py "steamapps" </> (py "appmanifest_" ++ appid ++ py ".acf").

(** On a disk at rest every existence test answers, and [game_name] returns
    a string; [Live.game_name] is the function on a disk where the test can
    raise. *)
Fixpoint game_name (fs : filesystem) (appid : str) (libs : list path) : str :=
  match libs with
  | [] => fallback_name appid
  | lib :: libs' =>
      let mf := manifest lib appid in
      if exists_ fs mf then default (fallback_name appid) (parse_kv fs mf !! py "name")
      else game_name fs appid libs'
  end.

(** ** [dir_size] *)

(** [os.walk(top)], top-down, on the tree found below [top]: the triple of a
    directory, then the triples of its subdirectories in order. *)
Fixpoint walk (top : path) (t : dirtree) : list (path * list str * list str) :=
  match t with
  | DirNode files subdirs =>
      (top, map fst subdirs, files) ::
      (fix walk_subdirs (l : list (str * dirtree)) :=
         match l with
         | [] => []
         | (n, t') :: l' => walk (top </> n) t' ++ walk_subdirs l'
         end) subdirs
  end.

Definition os_walk (fs : filesystem) (top : path) : list (path * list str * list str) :=
  match fs_walk_tree fs top with
  | Some t => walk top t
  | None => []
  end.

(** The paths [f = Path(r) / x] the generator expression of [dir_size]
    ranges over: for each triple [(r, _, files)] of the walk, for each [x] of
    [files]. *)
Definition files_of (triples : list (path * list str * list str)) : list path :=
  flat_map (fun rdf => map (fun x => Path (rdf.1.1) </> x) (rdf.2)) triples.

Definition walked_files (fs : filesystem) (p : path) : list path :=
  files_of (os_walk fs p).

(** On a disk at rest [f.exists()] and [f.stat()] agree on [f];
    [Live.dir_size] is the function on a disk where they are two
    observations. *)
Definition dir_size (fs : filesystem) (p : path) : result Z :=
  foldM (fun acc f =>
           if exists_ fs f then st ← fs_stat fs f; mret (acc + st_size st)
           else mret acc)
        0 (walked_files fs p).

(** ** [status] and the rate *)

Definition DOWNLOADING : str := py "DOWNLOADING".
Definition PAUSED : str := py "PAUSED".

Definition status (speed : Q) : str :=
  if Qltb 50000 speed then DOWNLOADING else PAUSED.

(** [max(a, b)] of Python: the second argument only when it is greater. *)
Definition max_int (a b : Z) : Z := if a <? b then b else a.
Definition max_float (a b : Q) : Q := if Qltb a b then b else a.

Definition epsilon : Q := 1 # 1000000.   (* 1e-6 *)

(** The expression assigned to [speed] in [main] when a previous sample
    exists: [max(0, size - last_size) / max(1e-6, t - last_time)]. *)
Definition main_speed (last_size : Z) (last_time : Q) (size : Z) (t : Q) : Q :=
  (inject_Z (max_int 0 (size - last_size)) / max_float epsilon (t - last_time))%Q.

(** ** [main] *)

(** The variables [last_size] and [last_time]. *)
Record sample := {
  last_size : option Z;
  last_time : option Q
}.

Definition no_sample : sample := {| last_size := None; last_time := None |}.

(** What one iteration prints, without the clock prefix and before [fmt]. *)
Inductive line :=
| NoActiveDownloads
| Report (name : str) (state : str) (speed : Q).

(** One iteration of the loop of [main], in the snapshot [fs], with [t] the
    value [time.time()] returns. *)
Definition tick (libs : list path) (fs : filesystem) (t : Q) (s : sample)
    : result (line * sample) :=
  active ← find_active_download fs libs;
  match active with
  | None => mret (NoActiveDownloads, no_sample)
  | Some ([], _) => mret (NoActiveDownloads, no_sample)   (* [not appid] on the empty string *)
  | Some (appid, p) =>
      size ← dir_size fs p;
      speed ← match last_size s with
              | None => mret 0%Q
              | Some ls =>
                  match last_time s with
                  | Some lt => mret (main_speed ls lt size t)
                  | None => Raise TypeError
                  end
              end;
      mret (Report (game_name fs appid libs) (status speed) speed,
            {| last_size := Some size; last_time := Some t |})
  end.

(** The environment of one iteration. *)
Record tick_env := {
  env_fs : filesystem;
  env_time : Q
}.

(** The [for] loop of [main] over the environments of its iterations. *)
Fixpoint main_loop (libs : list path) (envs : list tick_env) (s : sample)
    : result (list line) :=
  match envs with
  | [] => mret []
  | e :: envs' =>
      '(l, s') ← tick libs (env_fs e) (env_time e) s;
      ls ← main_loop libs envs' s';
      mret (l :: ls)
  end.

(** [main] on Windows, given the root [get_steam_path] found, the snapshot
    at start-up and the environments of the five iterations. *)
Definition main (steam : path) (fs0 : filesystem) (envs : nat -> tick_env)
    : result (list line) :=
  libs ← get_libraries fs0 steam;
  main_loop libs (map envs (seq 0 5)) no_sample.

(** ** Key-value documents

    The shape of the texts the program reads, used to state what [findall]
    extracts from them: quoted pairs and quoted section names, each followed
    by a stretch of quote-free text (braces, white space, anything else). *)

(** The text of one quoted pair: a quoted key, white space, a quoted value. *)
Definition pair_text (key white val : str) : str :=
  quote :: key ++ quote :: white ++ quote :: val ++ [quote].

Inductive item :=
| Pair (key white val : str)
| SectionName (name : str).

Definition item_text (it : item) : str :=
  match it with
  | Pair key white val => pair_text key white val
  | SectionName name => quote :: name ++ [quote]
  end.

Definition first_token (it : item) : str :=
  match it with
  | Pair key _ _ => key
  | SectionName name => name
  end.

(** Each item comes with the quote-free text that follows it. *)
Fixpoint render (items : list (item * str)) : str :=
  match items with
  | [] => []
  | (it, gap) :: items' => item_text it ++ gap ++ render items'
  end.

Definition document (gap0 : str) (items : list (item * str)) : str :=
  gap0 ++ render items.

Definition quote_free (s : str) : bool := forallb not_quote s.
Definition blank (s : str) : bool := forallb is_space s.

(** Well-formed items: keys are non-empty, keys, values, names and gaps hold
    no quote, and the white space of a pair is white space.  A section name is
    told from a key by what follows it: something other than white space (its
    brace), and then a token that is not blank. *)
Fixpoint well_formed (after_section : bool) (items : list (item * str)) : bool :=
  match items with
  | [] => true
  | (it, gap) :: items' =>
      quote_free gap &&
      (if after_section then negb (blank (first_token it)) else true) &&
      match it with
      | Pair key white val =>
          negb (bool_decide (key = [])) && quote_free key && blank white &&
          quote_free val && well_formed false items'
      | SectionName name =>
          quote_free name && negb (blank gap) && well_formed true items'
      end
  end.

(** The pairs of a document, in order. *)
Fixpoint pairs_of (items : list (item * str)) : list (str * str) :=
  match items with
  | [] => []
  | (Pair key _ val, _) :: items' => (key, val) :: pairs_of items'
  | (SectionName _, _) :: items' => pairs_of items'
  end.

(** The value of the last pair with key [k], if any. *)
Fixpoint last_value (k : str) (pairs : list (str * str)) : option str :=
  match pairs with
  | [] => None
  | (k', v) :: pairs' =>
      match last_value k pairs' with
      | Some v' => Some v'
      | None => if bool_decide (k' = k) then Some v else None
      end
  end.

(** ** Concrete snapshots

    Snapshots for the examples are given by tables: a path that is not in a
    table does not exist, cannot be read or listed, and resolves to itself. *)

Fixpoint assoc {A : Type} (tbl : list (path * A)) (p : path) : option A :=
  match tbl with
  | [] => None
  | (q, a) :: tbl' => if bool_decide (q = p) then Some a else assoc tbl' p
  end.

Definition or_raise {A : Type} (o : option A) : result A :=
  match o with
  | Some a => Ok a
  | None => Raise OSError
  end.

Definition snapshot (stats : list (path * stat_result)) (texts : list (path * str))
    (listings : list (path * list str)) (canon : list (path * path))
    (trees : list (path * dirtree)) : filesystem :=
  {| fs_stat p := or_raise (assoc stats p);
     fs_read_text p := or_raise (assoc texts p);
     fs_iterdir p := or_raise (assoc listings p);
     fs_resolve p := default p (assoc canon p);
     fs_walk_tree p := assoc trees p |}.

Definition file_stat (size : Z) (mtime : Q) : stat_result :=
  {| st_isdir := false; st_size := size; st_mtime := mtime |}.

Definition dir_stat (mtime : Q) : stat_result :=
  {| st_isdir := true; st_size := 0; st_mtime := mtime |}.

(** Test texts are written with apostrophes standing for double quotes. *)
Definition pyq (s : string) : str :=
  map (fun c => if (c =? 39)%N then quote else c) (py s).

(** Reassociate appends to the right. *)
Ltac list_norm := repeat first [rewrite <- app_assoc | progress simpl].

(** Split the boolean conjunctions among the hypotheses. *)
Ltac split_andb :=
  repeat match goal with
         | H : _ && _ = true |- _ => apply andb_true_iff in H as [? ?]
         end.

(** What may follow a section name and its gap: nothing, or a quoted token
    that is not blank. *)
Definition solid_head (rest : str) : Prop :=
  rest = [] \/
  exists tok r, rest = quote :: tok ++ quote :: r /\
                quote_free tok = true /\ blank tok = false.

(** A manifest in the layout of the client: a section name, braces, pairs
    on their lines, and the key [name] twice. *)
Definition manifest_items : list (item * str) :=
  [ (SectionName (py "AppState"), py " { ");
    (Pair (py "appid") (py "  ") (py "10"), py " ");
    (Pair (py "name") (py " ") (py "Half"), py " ");
    (Pair (py "name") (py " ") (py "Full"), py " } ") ].

Definition manifest_fs : filesystem :=
  snapshot [] [ (py "m.acf", document [] manifest_items) ] [] [] [].

(** ** The download directories [find_active_download] chooses among *)

(** The entries of [droot] that are directories with an [isdigit] name. *)
Definition digit_subdirs (fs : filesystem) (droot : path) (names : list str)
    : list (str * path) :=
  omap (fun n => if is_dir fs (droot </> n) && isdigit n
                 then Some (n, droot </> n) else None) names.

Definition download_dirs (fs : filesystem) (lib : path) : list (str * path) :=
  if exists_ fs (downloading lib) then
    match fs_iterdir fs (downloading lib) with
    | Ok names => digit_subdirs fs (downloading lib) names
    | Raise _ => []
    end
  else [].

(** All of them, library by library, in the order of the scan. *)
Definition candidates (fs : filesystem) (libs : list path) : list (str * path) :=
  flat_map (download_dirs fs) libs.

Definition mtime_of (fs : filesystem) (d : path) : Q :=
  match fs_stat fs d with
  | Ok st => st_mtime st
  | Raise _ => 0%Q
  end.

(** [(name, d)] is the first directory of [cands] with the greatest
    modification time: those before it are strictly older, those after it are
    not newer. *)
Definition first_newest (fs : filesystem) (cands : list (str * path))
    (name : str) (d : path) : Prop :=
  exists before after,
    cands = before ++ (name, d) :: after /\
    Forall (fun c => (mtime_of fs c.2 < mtime_of fs d)%Q) before /\
    Forall (fun c => (mtime_of fs c.2 <= mtime_of fs d)%Q) after.

(** The download directory of a library can be listed when it exists. *)
Definition listable (fs : filesystem) (lib : path) : Prop :=
  exists_ fs (downloading lib) = true ->
  exists names, fs_iterdir fs (downloading lib) = Ok names.

(** The choice the inner loop makes between [latest] and a candidate. *)
Definition pick (fs : filesystem) (latest : option candidate) (c : str * path)
    : option candidate :=
  match latest with
  | None => Some (mtime_of fs c.2, c.1, c.2)
  | Some (m, _, _) =>
      if Qltb m (mtime_of fs c.2) then Some (mtime_of fs c.2, c.1, c.2) else latest
  end.

(** What the loops hold in [latest] after the candidates [cands]. *)
Definition holds_first_newest (fs : filesystem) (cands : list (str * path))
    (latest : option candidate) : Prop :=
  match latest with
  | None => cands = []
  | Some (m, name, d) => m = mtime_of fs d /\ first_newest fs cands name d
  end.

(** The selection example: directories [10], [20], [30] with modification
    times 100, 300, 200, and a newer directory [abc]. *)
Definition selection_fs : filesystem :=
  snapshot
    [ (downloading (py "L"), dir_stat 50);
      (downloading (py "L") </> py "10", dir_stat 100);
      (downloading (py "L") </> py "20", dir_stat 300);
      (downloading (py "L") </> py "30", dir_stat 200);
      (downloading (py "L") </> py "abc", dir_stat 999) ]
    []
    [ (downloading (py "L"), [py "10"; py "20"; py "30"; py "abc"]) ]
    [] [].

(** The superscript digit two, U+00B2: a digit for [isdigit], not a decimal
    digit. *)
Definition superscript_two : str := [178%N].

(** As [selection_fs], with a newest directory named by a superscript two. *)
Definition superscript_fs : filesystem :=
  snapshot
    [ (downloading (py "L"), dir_stat 50);
      (downloading (py "L") </> py "10", dir_stat 100);
      (downloading (py "L") </> py "20", dir_stat 300);
      (downloading (py "L") </> superscript_two, dir_stat 400) ]
    []
    [ (downloading (py "L"), [py "10"; py "20"; superscript_two]) ]
    [] [].

(** The detector only ever returns a directory named in decimal digits. *)
Definition returns_decimal_name (fs : filesystem) (libs : list path) : Prop :=
  forall name d,
    find_active_download fs libs = Ok (Some (name, d)) ->
    all_decimal_digits name = true.

(** ** Two iterations with a change of item

    At the first iteration directory [10] is the only download, 1000 bytes
    large; at the second, a minute later, directory [20] has appeared, is the
    newest, and holds 5,000,000 bytes. *)

Definition switch_fs1 : filesystem :=
  snapshot
    [ (downloading (py "L"), dir_stat 50);
      (downloading (py "L") </> py "10", dir_stat 100);
      (downloading (py "L") </> py "10" </> py "a", file_stat 1000 90) ]
    []
    [ (downloading (py "L"), [py "10"]) ]
    []
    [ (downloading (py "L") </> py "10", DirNode [py "a"] []) ].

Definition switch_fs2 : filesystem :=
  snapshot
    [ (downloading (py "L"), dir_stat 150);
      (downloading (py "L") </> py "10", dir_stat 100);
      (downloading (py "L") </> py "10" </> py "a", file_stat 1000 90);
      (downloading (py "L") </> py "20", dir_stat 200);
      (downloading (py "L") </> py "20" </> py "b", file_stat 5000000 190) ]
    []
    [ (downloading (py "L"), [py "10"; py "20"]) ]
    []
    [ (downloading (py "L") </> py "10", DirNode [py "a"] []);
      (downloading (py "L") </> py "20", DirNode [py "b"] []) ].

Definition switch_env1 : tick_env := {| env_fs := switch_fs1; env_time := 0 |}.
Definition switch_env2 : tick_env := {| env_fs := switch_fs2; env_time := 60 |}.

(** The identifier the detector returns, if any. *)
Definition detected (fs : filesystem) (libs : list path) : option str :=
  match find_active_download fs libs with
  | Ok (Some (appid, _)) => Some appid
  | _ => None
  end.

(** The item-switch rule: when the identifier detected at the second of two
    consecutive iterations differs from the one detected at the first, the
    second reports a zero rate. *)
Definition switch_reports_zero (libs : list path) (e1 e2 : tick_env)
    (s0 : sample) : Prop :=
  detected (env_fs e1) libs <> detected (env_fs e2) libs ->
  forall l1 s1 name state speed s2,
    tick libs (env_fs e1) (env_time e1) s0 = Ok (l1, s1) ->
    tick libs (env_fs e2) (env_time e2) s1 = Ok (Report name state speed, s2) ->
    (speed == 0)%Q.

(** The name held in [latest], if any, satisfies [isdigit]. *)
Definition digit_named (latest : option candidate) : Prop :=
  match latest with
  | Some (_, name, _) => isdigit name = true
  | None => True
  end.

(** ** Manifests *)

(** Two libraries; only the second has a manifest for item [10], the text
    of [manifest_items]. *)
Definition catalog_fs : filesystem :=
  snapshot
    [ (manifest (py "M") (py "10"), file_stat 57 10) ]
    [ (manifest (py "M") (py "10"), document [] manifest_items) ]
    [] [] [].

(** ** The size of a tree *)

(** What a listed file adds to the total: its size, or nothing when it is
    gone by the time it is queried. *)
Definition file_contribution (fs : filesystem) (f : path) : Z :=
  match fs_stat fs f with
  | Ok st => st_size st
  | Raise _ => 0
  end.

Definition sumZ (l : list Z) : Z := foldr Z.add 0 l.

(** The total over a directory tree, by recursion on the tree: the files of
    the directory, and the totals of its subdirectories. *)
Fixpoint tree_size (fs : filesystem) (top : path) (t : dirtree) : Z :=
  match t with
  | DirNode files subdirs =>
      sumZ (map (fun x => file_contribution fs (Path top </> x)) files) +
      (fix subdirs_size (l : list (str * dirtree)) : Z :=
         match l with
         | [] => 0
         | (n, t') :: l' => tree_size fs (top </> n) t' + subdirs_size l'
         end) subdirs
  end.

(** A download directory with a nested directory; the file [gone] is listed
    but no longer there. *)
Definition nested_fs : filesystem :=
  snapshot
    [ (py "D" </> py "a", file_stat 100 1);
      (py "D" </> py "sub" </> py "b", file_stat 20 2);
      (py "D" </> py "sub" </> py "deep" </> py "c", file_stat 3 3) ]
    [] [] []
    [ (py "D",
       DirNode [py "a"; py "gone"]
         [ (py "sub", DirNode [py "b"] [ (py "deep", DirNode [py "c"] []) ]) ]) ].

(** ** The libraries of an installation *)

(** The spellings [get_libraries] collects from a registry text: the root,
    then the values of the pairs that are existing paths. *)
Definition listed_libraries (fs : filesystem) (root : path) (text : str) : list path :=
  root :: filter (fun p => exists_ fs p = true) (map (fun kv => Path kv.2) (findall text)).

(** The spellings collected at an installation. *)
Definition collected (fs : filesystem) (root : path) : list path :=
  if exists_ fs (registry root) then
    match fs_read_text fs (registry root) with
    | Ok text => listed_libraries fs root text
    | Raise _ => [root]
    end
  else [root].

(** An installation whose registry names one more library twice, in two
    spellings of one directory, and a third path that does not exist. *)
Definition two_spellings_fs : filesystem :=
  snapshot
    [ (registry (py "S"), file_stat 60 5);
      (py "D:\Games", dir_stat 7);
      (py "D:/Games", dir_stat 7) ]
    [ (registry (py "S"),
       pyq "'libraryfolders' { '0' { 'path' 'D:\Games' } '1' { 'path' 'D:/Games' } '2' { 'path' 'E:\Gone' } }") ]
    []
    [ (py "D:/Games", py "D:\Games") ]
    [].

(** An installation whose registry exists and cannot be read. *)
Definition locked_fs : filesystem :=
  snapshot [ (registry (py "S"), file_stat 60 5) ] [] [] [] [].

(** ** Documents without the condition on the token after a section name *)

(** As [well_formed], without asking anything of the token that follows a
    section name. *)
Fixpoint plain_items (items : list (item * str)) : bool :=
  match items with
  | [] => true
  | (it, gap) :: items' =>
      quote_free gap &&
      match it with
      | Pair key white val =>
          negb (bool_decide (key = [])) && quote_free key && blank white &&
          quote_free val
      | SectionName name => quote_free name && negb (blank gap)
      end &&
      plain_items items'
  end.

(** The parser extracts exactly the pairs of the document. *)
Definition extracts_pairs_of (gap0 : str) (items : list (item * str)) : Prop :=
  findall (document gap0 items) = pairs_of items.

(** A section whose first pair has a key of one space. *)
Definition blank_key_items : list (item * str) :=
  [ (SectionName (py "S"), py " { ");
    (Pair (py " ") (py " ") (py "v"), py " }") ].

(** ** [get_steam_path]

    The Windows registry is an explicit value as the file system is: what
    [winreg.OpenKey] and [winreg.QueryValueEx] answer, [None] standing for
    the [OSError] the call raises.  An opened key is named by what was
    opened; values are strings, as the two values the program reads are. *)

Inductive hive := HKEY_CURRENT_USER | HKEY_LOCAL_MACHINE.

Definition hkey : Type := hive * str.

Record winreg := {
  OpenKey : hive -> str -> option hkey;
  QueryValueEx : hkey -> str -> option str
}.

(** The list [keys] of the source. *)
Definition keys : list (hive * str * str) :=
  [ (HKEY_CURRENT_USER, py "Software\Valve\Steam", py "SteamPath");
    (HKEY_LOCAL_MACHINE, py "SOFTWARE\WOW6432Node\Valve\Steam", py "InstallPath") ].

(** The body of the [try] for one entry of [keys]: [Some path] when it
    reaches [return path], [None] when the [with] block ends without
    returning or an [OSError] is caught. *)
Definition try_key (reg : winreg) (fs : filesystem) (key : hive * str * str)
    : option path :=
  match OpenKey reg key.1.1 key.1.2 with
  | Some k =>
      match QueryValueEx reg k key.2 with
      | Some value =>
          let p := Path value in
          if exists_ fs p then Some p else None
      | None => None
      end
  | None => None
  end.

(** What [get_steam_path] does: it returns a path, or raises
    [RuntimeError("Steam not found")]. *)
Inductive steam_path :=
| SteamAt (p : path)
| SteamNotFound.

Fixpoint get_steam_path_from (reg : winreg) (fs : filesystem)
    (ks : list (hive * str * str)) : steam_path :=
  match ks with
  | [] => SteamNotFound
  | key :: ks' =>
      match try_key reg fs key with
      | Some p => SteamAt p
      | None => get_steam_path_from reg fs ks'
      end
  end.

Definition get_steam_path (reg : winreg) (fs : filesystem) : steam_path :=
  get_steam_path_from reg fs keys.

(** ** The whole of [main]

    [main] with its platform test and the lookup of the root: on another
    platform it prints one line and returns; when the root is not found the
    [RuntimeError] ends it; otherwise it is [main] above on the root. *)

Inductive run :=
| WindowsOnly
| SteamNotFoundError
| Monitored (r : result (list line)).

Definition main_program (platform : str) (reg : winreg) (fs0 : filesystem)
    (envs : nat -> tick_env) : run :=
  if bool_decide (platform = py "win32") then
    match get_steam_path reg fs0 with
    | SteamAt steam => Monitored (main steam fs0 envs)
    | SteamNotFound => SteamNotFoundError
    end
  else WindowsOnly.

(** A registry given by tables, for the examples. *)
Fixpoint assoc_by {K A : Type} `{EqDecision K} (tbl : list (K * A)) (k : K) : option A :=
  match tbl with
  | [] => None
  | (k', a) :: tbl' => if bool_decide (k' = k) then Some a else assoc_by tbl' k
  end.

#[export] Instance hive_eq_dec : EqDecision hive := ltac:(solve_decision).

Definition registry_of (values : list (hive * str * str * str)) : winreg :=
  {| OpenKey h sub :=
       if existsb (fun e => bool_decide (e.1.1.1 = h) && bool_decide (e.1.1.2 = sub)) values
       then Some (h, sub) else None;
     QueryValueEx k name := assoc_by (map (fun e => ((e.1.1.1, e.1.1.2, e.1.2), e.2)) values)
                              (k.1, k.2, name) |}.

(** A registry whose per-user entry names a directory that is gone, and
    whose machine entry names the installation. *)
Definition stale_user_registry : winreg :=
  registry_of
    [ (HKEY_CURRENT_USER, py "Software\Valve\Steam", py "SteamPath", py "C:\Old");
      (HKEY_LOCAL_MACHINE, py "SOFTWARE\WOW6432Node\Valve\Steam", py "InstallPath",
       py "C:\Steam") ].

Definition steam_fs : filesystem :=
  snapshot [ (py "C:\Steam", dir_stat 1) ] [] [] [] [].

(** An installation whose registry file has, as the client writes it, a
    [label] pair with an empty value beside the [path] pair. *)
Definition label_fs : filesystem :=
  snapshot
    [ (registry (py "S"), file_stat 60 5);
      (py "D:\Games", dir_stat 7);
      (py ".", dir_stat 9) ]
    [ (registry (py "S"),
       pyq "'libraryfolders' { '0' { 'path' 'D:\Games' 'label' '' } }") ]
    [] [] [].

(** Two libraries: the first has a download of item [10]; the download
    path of the second exists and cannot be listed. *)
Definition unlistable_fs : filesystem :=
  snapshot
    [ (downloading (py "L"), dir_stat 50);
      (downloading (py "L") </> py "10", dir_stat 100);
      (downloading (py "M"), file_stat 0 60) ]
    []
    [ (downloading (py "L"), [py "10"]) ]
    [] [].

(** As [nested_fs], with a file elsewhere on the disk. *)
Definition nested_fs_elsewhere : filesystem :=
  snapshot
    [ (py "D" </> py "a", file_stat 100 1);
      (py "D" </> py "sub" </> py "b", file_stat 20 2);
      (py "D" </> py "sub" </> py "deep" </> py "c", file_stat 3 3);
      (py "E" </> py "z", file_stat 999 4) ]
    [] [] []
    [ (py "D",
       DirNode [py "a"; py "gone"]
         [ (py "sub", DirNode [py "b"] [ (py "deep", DirNode [py "c"] []) ]) ]) ].

(** As [nested_fs], with the tree found below the subdirectory as well. *)
Definition nested_views_fs : filesystem :=
  snapshot
    [ (py "D" </> py "a", file_stat 100 1);
      (py "D" </> py "sub" </> py "b", file_stat 20 2);
      (py "D" </> py "sub" </> py "deep" </> py "c", file_stat 3 3) ]
    [] [] []
    [ (py "D",
       DirNode [py "a"; py "gone"]
         [ (py "sub", DirNode [py "b"] [ (py "deep", DirNode [py "c"] []) ]) ]);
      (py "D" </> py "sub", DirNode [py "b"] [ (py "deep", DirNode [py "c"] []) ]) ].

(** An iteration at which nothing is being downloaded. *)
Definition idle_env : tick_env := {| env_fs := steam_fs; env_time := 0 |}.

(** ** The live disk

    [Path.exists()] answers [False] only for the errors it ignores and
    raises any other [OSError] again: access denied to the directory of the
    path, a name longer than the disk allows.  And while a download is
    written, a file found by [f.exists()] can be gone when [f.stat()] is
    called.  On a live disk every call is an observation of its own. *)

Module Live.

Record disk := {
  d_exists : path -> result bool;          (* Path.exists() *)
  d_stat : path -> result stat_result;     (* Path.stat() *)
  d_read_text : path -> result str;        (* Path.read_text(encoding="utf-8", errors="ignore") *)
  d_walk_tree : path -> option dirtree     (* the tree below the top of os.walk *)
}.

(** A disk at rest, seen as a live disk. *)
Definition observe (fs : filesystem) : disk :=
  {| d_exists p := Ok (exists_ fs p);
     d_stat := fs_stat fs;
     d_read_text := fs_read_text fs;
     d_walk_tree := fs_walk_tree fs |}.

Definition parse_kv (d : disk) (p : path) : gmap str str :=
  match d_read_text d p with
  | Ok text => dict (findall text)
  | Raise _ => ∅
  end.

Fixpoint game_name (d : disk) (appid : str) (libs : list path) : result str :=
  match libs with
  | [] => mret (fallback_name appid)
  | lib :: libs' =>
      let mf := manifest lib appid in
      found ← d_exists d mf;
      if found : bool
      then mret (default (fallback_name appid) (parse_kv d mf !! py "name"))
      else game_name d appid libs'
  end.

Definition walked_files (d : disk) (p : path) : list path :=
  files_of (match d_walk_tree d p with
            | Some t => walk p t
            | None => []
            end).

(** The body of the sum of [dir_size] for the file [f]: the condition
    [f.exists()], then the element [f.stat().st_size]. *)
Definition add_size (d : disk) (acc : Z) (f : path) : result Z :=
  found ← d_exists d f;
  if found : bool then st ← d_stat d f; mret (acc + st_size st) else mret acc.

Definition dir_size (d : disk) (p : path) : result Z :=
  foldM (add_size d) 0 (walked_files d p).

(** What a listed file has added when the measurement returns. *)
Definition contribution (d : disk) (f : path) : Z :=
  match d_exists d f with
  | Ok true =>
      match d_stat d f with
      | Ok st => st_size st
      | Raise _ => 0
      end
  | _ => 0
  end.

End Live.

(** [game_name] returns a name. *)
Definition game_name_returns (d : Live.disk) (appid : str) (libs : list path) : Prop :=
  exists name, Live.game_name d appid libs = Ok name.

(** A disk on which the directory [steamapps] of library [L] may not be
    entered: the existence test of a path in it raises [PermissionError]. *)
Definition denied_disk : Live.disk :=
  {| Live.d_exists p :=
       if bool_decide (p = manifest (py "L") (py "10")) then Raise OSError else Ok false;
     Live.d_stat _ := Raise OSError;
     Live.d_read_text _ := Raise OSError;
     Live.d_walk_tree _ := None |}.

(** An item identifier of 250 digits, a name a directory can have.  The name
    of its manifest has 266 characters; where a name has at most 255, the
    existence test raises the [OSError] for a name too long. *)
Definition long_appid : str := repeat 49%N 250.

Definition long_name_disk : Live.disk :=
  {| Live.d_exists p :=
       if bool_decide (p = manifest (py "L") long_appid) then Raise OSError else Ok false;
     Live.d_stat _ := Raise OSError;
     Live.d_read_text _ := Raise OSError;
     Live.d_walk_tree _ := None |}.

(** A download directory with the files [a] and [b] listed; both are there
    when their existence is tested, and [b] has been deleted when its size is
    asked for. *)
Definition vanishing_disk : Live.disk :=
  {| Live.d_exists p :=
       if bool_decide (p = py "D" </> py "a") || bool_decide (p = py "D" </> py "b")
       then Ok true else Ok false;
     Live.d_stat p :=
       if bool_decide (p = py "D" </> py "a") then Ok (file_stat 100 1) else Raise OSError;
     Live.d_read_text _ := Raise OSError;
     Live.d_walk_tree p :=
       if bool_decide (p = py "D") then Some (DirNode [py "a"; py "b"] []) else None |}.

(** The same directory when [b] is deleted before its existence is tested. *)
Definition vanished_disk : Live.disk :=
  {| Live.d_exists p :=
       if bool_decide (p = py "D" </> py "a") then Ok true else Ok false;
     Live.d_stat p :=
       if bool_decide (p = py "D" </> py "a") then Ok (file_stat 100 1) else Raise OSError;
     Live.d_read_text _ := Raise OSError;
     Live.d_walk_tree p :=
       if bool_decide (p = py "D") then Some (DirNode [py "a"; py "b"] []) else None |}.

(** * Properties *)

(** ** The matcher *)

Section StarRun.
Context {A : Type} (cls : N -> bool) (k : str -> str -> option A).

(** A successful [cls*] stopped after some run of class characters. *)
Lemma star_from_inv acc s r :
  Re.star_from cls k acc s = Some r ->
  exists run rest,
    s = run ++ rest /\ forallb cls run = true /\ k (acc ++ run) rest = Some r.
Proof.
  revert acc. induction s as [|c s IH]; intros acc H; simpl in H.
  - exists [], []. simpl. by rewrite app_nil_r.
  - destruct (cls c) eqn:Hc.
    + destruct (Re.star_from cls k (acc ++ [c]) s) eqn:Hrec.
      * injection H as <-. apply IH in Hrec as (run & rest & -> & Hrun & Hk).
        exists (c :: run), rest. simpl. rewrite Hc, Hrun.
        by rewrite <- app_assoc in Hk.
      * exists [], (c :: s). simpl. by rewrite app_nil_r.
    + exists [], (c :: s). simpl. by rewrite app_nil_r.
Qed.

(** When the rest of the pattern cannot start with a class character, the
    greedy run is the only candidate: no giving back succeeds. *)
Hypothesis k_rejects : forall a c s, cls c = true -> k a (c :: s) = None.

Lemma star_from_run acc run rest :
  forallb cls run = true ->
  match rest with [] => True | c :: _ => cls c = false end ->
  Re.star_from cls k acc (run ++ rest) = k (acc ++ run) rest.
Proof.
  revert acc. induction run as [|c run IH]; intros acc Hrun Hrest; simpl.
  - rewrite app_nil_r. destruct rest as [|c rest]; [done|].
    simpl. by rewrite Hrest.
  - simpl in Hrun. apply andb_true_iff in Hrun as [Hc Hrun].
    rewrite Hc, IH by done. rewrite <- app_assoc. simpl.
    destruct (k (acc ++ c :: run) rest) eqn:Hk; [done|].
    by rewrite k_rejects.
Qed.
End StarRun.

Lemma is_space_not_quote c : is_space c = true -> not_quote c = true.
Proof.
  unfold not_quote. destruct (N.eqb_spec c quote) as [->|]; [|done].
  vm_compute. discriminate.
Qed.

Lemma lit_quote_rejects {A} (k : str -> option A) c s :
  not_quote c = true -> Re.lit quote k (c :: s) = None.
Proof.
  unfold not_quote, Re.lit. by destruct (c =? quote)%N.
Qed.

(** [KV_RE] matches at the start of a quoted pair, and captures its key and
    value. *)
Lemma KV_RE_match_pair key white val rest :
  key <> [] ->
  quote_free key = true ->
  blank white = true ->
  quote_free val = true ->
  KV_RE_match (pair_text key white val ++ rest) = Some (key, val, rest).
Proof.
  unfold quote_free, blank. intros Hne Hkey Hwhite Hval.
  destruct key as [|c key]; [done|]. simpl in Hkey.
  apply andb_true_iff in Hkey as [Hc Hkey].
  unfold KV_RE_match, pair_text. simpl. unfold Re.plus. rewrite Hc.
  rewrite <- !app_assoc. simpl.
  rewrite star_from_run; [|by intros; apply lit_quote_rejects|done|done].
  simpl. unfold Re.star.
  rewrite <- !app_assoc. simpl.
  rewrite star_from_run;
    [|by intros; apply lit_quote_rejects, is_space_not_quote|done|done].
  simpl. rewrite <- app_assoc. simpl.
  rewrite star_from_run; [|by intros; apply lit_quote_rejects|done|done].
  done.
Qed.

(** Conversely, whatever [KV_RE] matches is the text of a quoted pair. *)
Lemma KV_RE_match_inv s key val rest :
  KV_RE_match s = Some (key, val, rest) ->
  exists white,
    s = pair_text key white val ++ rest /\
    key <> [] /\ quote_free key = true /\
    blank white = true /\ quote_free val = true.
Proof.
  unfold KV_RE_match, quote_free, blank. intros H.
  destruct s as [|q0 s]; [done|]. simpl in H.
  destruct (N.eqb_spec q0 quote) as [->|]; [|done].
  unfold Re.plus in H. destruct s as [|c s]; [done|].
  destruct (not_quote c) eqn:Hc; [|done].
  apply star_from_inv in H as (run & s1 & -> & Hrun & H).
  destruct s1 as [|q1 s1]; [done|]. simpl in H.
  destruct (N.eqb_spec q1 quote) as [->|]; [|done].
  apply star_from_inv in H as (white & s2 & -> & Hwhite & H).
  destruct s2 as [|q2 s2]; [done|]. simpl in H.
  destruct (N.eqb_spec q2 quote) as [->|]; [|done].
  apply star_from_inv in H as (v & s3 & -> & Hv & H).
  destruct s3 as [|q3 s3]; [done|]. simpl in H.
  destruct (N.eqb_spec q3 quote) as [->|]; [|done].
  injection H as <- <- <-.
  exists white. split_and!; try done.
  - unfold pair_text. simpl. by list_norm.
  - simpl. by rewrite Hc, Hrun.
Qed.

Lemma KV_RE_match_shorter s key val rest :
  KV_RE_match s = Some (key, val, rest) -> (length rest < length s)%nat.
Proof.
  intros (white & -> & _)%KV_RE_match_inv.
  unfold pair_text. simpl. rewrite !length_app. simpl.
  rewrite !length_app. simpl. rewrite !length_app. simpl. lia.
Qed.

(** Fuel above the length of the text is never used up. *)
Lemma findall_from_fuel fuel s :
  (length s < fuel)%nat -> findall_from fuel s = findall s.
Proof.
  unfold findall. revert s.
  induction fuel as [fuel IH] using lt_wf_ind. intros s Hlen.
  destruct fuel as [|fuel]; [lia|].
  cbn [findall_from].
  destruct (KV_RE_match s) as [[[key val] rest]|] eqn:Hm.
  - pose proof (KV_RE_match_shorter _ _ _ _ Hm) as Hshort.
    f_equal. rewrite (IH fuel) by lia. symmetry. apply IH; lia.
  - destruct s as [|c s]; [done|]. simpl in Hlen.
    rewrite (IH fuel) by lia. symmetry. apply IH; simpl; lia.
Qed.

(** The equation of [findall]. *)
Lemma findall_eq s :
  findall s =
    match KV_RE_match s with
    | Some (key, val, rest) => (key, val) :: findall rest
    | None =>
        match s with
        | [] => []
        | _ :: s' => findall s'
        end
    end.
Proof.
  unfold findall at 1. simpl.
  destruct (KV_RE_match s) as [[[key val] rest]|] eqn:Hm.
  - f_equal. apply findall_from_fuel. by eapply KV_RE_match_shorter.
  - destruct s as [|c s]; [done|]. apply findall_from_fuel. simpl. lia.
Qed.

(** ** [findall] on documents *)

Lemma KV_RE_match_not_quote c s : not_quote c = true -> KV_RE_match (c :: s) = None.
Proof. intros Hc. unfold KV_RE_match. by apply lit_quote_rejects. Qed.

(** Quote-free text is scanned over. *)
Lemma findall_skip gap s : quote_free gap = true -> findall (gap ++ s) = findall s.
Proof.
  induction gap as [|c gap IH]; [done|]. simpl.
  intros [Hc Hgap]%andb_true_iff.
  rewrite findall_eq, KV_RE_match_not_quote by done. by apply IH.
Qed.

Lemma findall_pair key white val s :
  key <> [] -> quote_free key = true -> blank white = true -> quote_free val = true ->
  findall (pair_text key white val ++ s) = (key, val) :: findall s.
Proof.
  intros. by rewrite findall_eq, KV_RE_match_pair.
Qed.

(** The first quote of a text determines the split around it. *)
Lemma first_quote_unique (a b x y : str) :
  quote_free a = true -> quote_free b = true ->
  a ++ quote :: x = b ++ quote :: y -> a = b /\ x = y.
Proof.
  revert b. induction a as [|c a IH]; intros [|d b] Ha Hb Heq; simpl in *.
  - by injection Heq.
  - injection Heq as <- _. by apply andb_true_iff in Hb as [? _].
  - injection Heq as -> _. by apply andb_true_iff in Ha as [? _].
  - injection Heq as -> Heq.
    apply andb_true_iff in Ha as [_ Ha]. apply andb_true_iff in Hb as [_ Hb].
    destruct (IH _ Ha Hb Heq) as [-> ->]. done.
Qed.

Lemma quote_free_app a b : quote_free (a ++ b) = quote_free a && quote_free b.
Proof. apply forallb_app. Qed.

Lemma blank_quote_free w : blank w = true -> quote_free w = true.
Proof.
  unfold blank, quote_free. rewrite !forallb_forall.
  intros H c Hc. by apply is_space_not_quote, H.
Qed.

Lemma pair_text_app key white val rest :
  pair_text key white val ++ rest =
  quote :: key ++ quote :: white ++ quote :: val ++ quote :: rest.
Proof. unfold pair_text. by list_norm. Qed.

(** No match starts at the opening quote of a section name ... *)
Lemma KV_RE_match_section_open name gap rest :
  quote_free name = true -> quote_free gap = true -> blank gap = false ->
  (rest = [] \/ exists r, rest = quote :: r) ->
  KV_RE_match (quote :: name ++ quote :: gap ++ rest) = None.
Proof.
  intros Hname Hgap Hblank Hrest.
  destruct (KV_RE_match _) as [[[key val] r']|] eqn:Hm; [exfalso|done].
  apply KV_RE_match_inv in Hm as (white & Heq & _ & Hkey & Hwhite & _).
  rewrite pair_text_app in Heq. injection Heq as Heq.
  apply first_quote_unique in Heq as [<- Heq]; [|done..].
  destruct Hrest as [->|[r ->]].
  - rewrite app_nil_r in Heq. rewrite Heq, quote_free_app in Hgap.
    by apply andb_true_iff in Hgap as [_ ?].
  - apply first_quote_unique in Heq as [-> _]; [congruence|done|].
    by apply blank_quote_free.
Qed.

(** ... nor at its closing quote. *)
Lemma KV_RE_match_section_close gap rest :
  quote_free gap = true -> solid_head rest ->
  KV_RE_match (quote :: gap ++ rest) = None.
Proof.
  intros Hgap Hrest.
  destruct (KV_RE_match _) as [[[key val] r']|] eqn:Hm; [exfalso|done].
  apply KV_RE_match_inv in Hm as (white & Heq & _ & Hkey & Hwhite & _).
  rewrite pair_text_app in Heq. injection Heq as Heq.
  destruct Hrest as [->|(tok & r & -> & Htok & Hblank)].
  - rewrite app_nil_r in Heq. rewrite Heq, quote_free_app in Hgap.
    by apply andb_true_iff in Hgap as [_ ?].
  - apply first_quote_unique in Heq as [<- Heq]; [|done..].
    apply first_quote_unique in Heq as [-> _]; [congruence|done|].
    by apply blank_quote_free.
Qed.

(** A section name and the text after it are scanned over. *)
Lemma findall_section name gap rest :
  quote_free name = true -> quote_free gap = true -> blank gap = false ->
  solid_head rest ->
  findall (quote :: name ++ quote :: gap ++ rest) = findall rest.
Proof.
  intros Hname Hgap Hblank Hrest.
  rewrite findall_eq, KV_RE_match_section_open; [|done..|].
  - rewrite findall_skip by done.
    rewrite findall_eq, KV_RE_match_section_close by done.
    by apply findall_skip.
  - destruct Hrest as [->|(tok & r & -> & _)]; [by left|right; by eexists].
Qed.

Lemma render_head b items :
  well_formed b items = true ->
  items = [] \/
  exists tok r, render items = quote :: tok ++ quote :: r /\
                quote_free tok = true /\ (b = true -> blank tok = false).
Proof.
  intros Hwf. destruct items as [|[it gap] items]; [by left|]. right.
  cbn [well_formed] in Hwf. split_andb.
  destruct it as [key white val|name]; split_andb; cbn [render item_text].
  - exists key, (white ++ quote :: val ++ quote :: gap ++ render items).
    split_and!; [by rewrite pair_text_app|done|].
    intros ->. by apply negb_true_iff.
  - exists name, (gap ++ render items).
    split_and!; [by list_norm|done|].
    intros ->. by apply negb_true_iff.
Qed.

(** [findall] returns the pairs of a well-formed document, in order. *)
Lemma findall_render b items :
  well_formed b items = true -> findall (render items) = pairs_of items.
Proof.
  revert b. induction items as [|[it gap] items IH]; intros b Hwf; [done|].
  cbn [well_formed] in Hwf. split_andb.
  destruct it as [key white val|name]; split_andb; cbn [render item_text pairs_of].
  - match goal with H : negb (bool_decide _) = true |- _ =>
      apply negb_true_iff, bool_decide_eq_false in H end.
    rewrite findall_pair by done.
    rewrite findall_skip by done. f_equal. by eapply IH.
  - list_norm. rewrite findall_section; [by eapply IH|done..| |].
    + by apply negb_true_iff.
    + destruct (render_head true items) as [->|(tok & r & -> & ? & Hb)];
        [done|by left|right].
      exists tok, r. split_and!; [done..|by apply Hb].
Qed.

Lemma findall_document gap0 items :
  quote_free gap0 = true -> well_formed false items = true ->
  findall (document gap0 items) = pairs_of items.
Proof.
  intros Hgap Hwf. unfold document. rewrite findall_skip by done.
  by eapply findall_render.
Qed.

(** On any text at all, every pair [findall] reports is a quoted pair that
    occurs in the text. *)
Lemma findall_sound text key val :
  (key, val) ∈ findall text ->
  exists before white after,
    text = before ++ pair_text key white val ++ after /\
    key <> [] /\ quote_free key = true /\ blank white = true /\
    quote_free val = true.
Proof.
  remember (length text) as n eqn:Hn. revert text Hn.
  induction n as [n IH] using lt_wf_ind. intros text -> Hin.
  rewrite findall_eq in Hin.
  destruct (KV_RE_match text) as [[[key' val'] rest]|] eqn:Hm.
  - pose proof (KV_RE_match_shorter _ _ _ _ Hm) as Hshort.
    apply KV_RE_match_inv in Hm as (white & -> & ? & ? & ? & ?).
    apply elem_of_cons in Hin as [[= -> ->]|Hin].
    + by exists [], white, rest.
    + destruct (IH _ Hshort rest eq_refl Hin)
        as (before & white' & after & -> & ?).
      exists (pair_text key' white val' ++ before), white', after.
      split; [by list_norm|done].
  - destruct text as [|c text]; [by apply elem_of_nil in Hin|].
    destruct (IH (length text) ltac:(simpl; lia) text eq_refl Hin)
      as (before & white' & after & -> & ?).
    by exists (c :: before), white', after.
Qed.

(** ** [dict] *)

Lemma dict_lookup_from (m : gmap str str) pairs k :
  foldl (fun m kv => <[kv.1 := kv.2]> m) m pairs !! k =
    match last_value k pairs with
    | Some v => Some v
    | None => m !! k
    end.
Proof.
  revert m. induction pairs as [|[k' v] pairs IH]; intros m; simpl; [done|].
  rewrite IH. destruct (last_value k pairs); [done|].
  rewrite lookup_insert. simpl.
  destruct (decide (k' = k)) as [->|Hne].
  - by rewrite bool_decide_eq_true_2.
  - by rewrite bool_decide_eq_false_2.
Qed.

(** Looking a key up in [dict(pairs)] gives the value of its last pair. *)
Lemma dict_lookup pairs k : dict pairs !! k = last_value k pairs.
Proof.
  unfold dict. rewrite dict_lookup_from, lookup_empty.
  by destruct (last_value k pairs).
Qed.

Lemma last_value_elem k v pairs : last_value k pairs = Some v -> (k, v) ∈ pairs.
Proof.
  induction pairs as [|[k' v'] pairs IH]; simpl; [done|].
  destruct (last_value k pairs) as [v0|].
  - intros [= ->]. right. by apply IH.
  - case_bool_decide as Hk; [|done]. intros [= ->]. subst. left.
Qed.

Lemma last_value_None k pairs : last_value k pairs = None <-> k ∉ pairs.*1.
Proof.
  induction pairs as [|[k' v'] pairs IH]; simpl.
  - split; [intros _ []%elem_of_nil|done].
  - rewrite not_elem_of_cons. destruct (last_value k pairs) as [v0|].
    + split; [done|]. intros [_ Hn]. by apply IH in Hn.
    + case_bool_decide as Hk; split; try done.
      * intros [? _]. by subst.
      * intros _. split; [done|]. by apply IH.
Qed.

(** The last pair with a given key decides the lookup. *)
Lemma last_value_last k v before after :
  k ∉ after.*1 -> last_value k (before ++ (k, v) :: after) = Some v.
Proof.
  intros Hafter%last_value_None.
  induction before as [|[k' v'] before IH]; simpl.
  - by rewrite Hafter, bool_decide_eq_true_2.
  - by rewrite IH.
Qed.

Lemma quote_free_spec s : quote_free s = true <-> quote ∉ s.
Proof.
  unfold quote_free. rewrite forallb_forall. split.
  - intros H Hin. apply list_elem_of_In, H in Hin. done.
  - intros H c Hc. unfold not_quote. apply negb_true_iff, N.eqb_neq.
    intros ->. by apply H, list_elem_of_In.
Qed.

(** ** [parse_kv] *)

Lemma parse_kv_ok fs p text :
  fs_read_text fs p = Ok text -> parse_kv fs p = dict (findall text).
Proof. unfold parse_kv. by intros ->. Qed.

Example manifest_text :
  document [] manifest_items =
  pyq "'AppState' { 'appid'  '10' 'name' 'Half' 'name' 'Full' } ".
Proof. vm_compute. reflexivity. Qed.

(** C6, as the code has it.  For every text the parser reads: each pair of
    the resulting mapping is a quoted key/value pair occurring in the text;
    and when the text is a well-formed document -- quoted pairs and quoted
    section names embedded in quote-free surrounding text such as braces, the
    token after a section name not being blank -- [findall] extracts exactly
    the pairs of the document, in order, and the mapping gives each key the
    value of its last occurrence (and nothing for a key that does not occur). *)
Theorem parse_kv_extracts_pairs (fs : filesystem) (p : path) (text : str) :
  fs_read_text fs p = Ok text ->
  (forall k v, parse_kv fs p !! k = Some v ->
     exists before white after,
       text = before ++ pair_text k white v ++ after /\ blank white = true) /\
  (forall gap0 items,
     text = document gap0 items ->
     quote_free gap0 = true -> well_formed false items = true ->
     findall text = pairs_of items /\
     (forall k, parse_kv fs p !! k = last_value k (pairs_of items)) /\
     (forall k v before after,
        pairs_of items = before ++ (k, v) :: after -> k ∉ after.*1 ->
        parse_kv fs p !! k = Some v) /\
     (forall k, k ∉ (pairs_of items).*1 -> parse_kv fs p !! k = None)).
Proof.
  intros Hread. rewrite (parse_kv_ok _ _ _ Hread). split.
  - intros k v Hkv. rewrite dict_lookup in Hkv.
    apply last_value_elem, findall_sound in Hkv
      as (before & white & after & -> & _ & _ & ? & _).
    by exists before, white, after.
  - intros gap0 items -> Hgap Hwf.
    rewrite findall_document by done. split_and!.
    + done.
    + intros k. apply dict_lookup.
    + intros k v before after -> Hlast.
      rewrite dict_lookup. by apply last_value_last.
    + intros k Hk. rewrite dict_lookup. by apply last_value_None.
Qed.

Lemma parse_kv_extracts_pairs_witness :
  findall (document [] manifest_items) =
    [ (py "appid", py "10"); (py "name", py "Half"); (py "name", py "Full") ] /\
  parse_kv manifest_fs (py "m.acf") !! py "name" = Some (py "Full") /\
  parse_kv manifest_fs (py "m.acf") !! py "AppState" = None.
Proof.
  destruct (parse_kv_extracts_pairs manifest_fs (py "m.acf")
              (document [] manifest_items) eq_refl) as [_ H].
  destruct (H [] manifest_items eq_refl eq_refl eq_refl) as (Hall & _ & Hlast & Hnone).
  split_and!.
  - exact Hall.
  - apply (Hlast (py "name") (py "Full")
             [ (py "appid", py "10"); (py "name", py "Half") ] []).
    + reflexivity.
    + apply not_elem_of_nil.
  - apply Hnone. vm_compute. intros Hin.
    repeat (apply elem_of_cons in Hin as [Hin|Hin]; [discriminate Hin|]).
    by apply elem_of_nil in Hin.
Defined.

(** A well-formed document is a plain one. *)
Lemma well_formed_plain b items :
  well_formed b items = true -> plain_items items = true.
Proof.
  revert b. induction items as [|[it gap] items IH]; intros b Hwf; [done|].
  cbn [well_formed] in Hwf. cbn [plain_items]. split_andb.
  destruct it as [key white val|name]; split_andb;
    repeat (apply andb_true_iff; split); eauto.
Qed.

(** C6, the surrounding tokens: after a section name and its brace, a pair
    whose key is blank is not extracted; the text between the section name and
    the key is taken for a key instead.  The same pair on its own is
    extracted. *)
Lemma blank_key_after_section :
  plain_items blank_key_items = true /\
  document [] blank_key_items = pyq "'S' { ' ' 'v' }" /\
  pairs_of blank_key_items = [ (py " ", py "v") ] /\
  findall (document [] blank_key_items) = [ (py " { ", py " ") ] /\
  findall (pyq "' ' 'v' }") = [ (py " ", py "v") ] /\
  ~ extracts_pairs_of [] blank_key_items.
Proof.
  split_and!; try (vm_compute; reflexivity).
  unfold extracts_pairs_of. vm_compute. discriminate.
Qed.

(** C10. [parse_kv] never raises: when reading the file fails it returns the
    empty mapping, and in every mapping it returns each key is a non-empty
    string without a double quote and each value a string without a double
    quote. *)
Theorem parse_kv_total (fs : filesystem) (p : path) :
  (forall e, fs_read_text fs p = Raise e -> parse_kv fs p = ∅) /\
  (forall k v, parse_kv fs p !! k = Some v -> k <> [] /\ (quote ∉ k) /\ (quote ∉ v)).
Proof.
  split.
  - intros e He. unfold parse_kv. by rewrite He.
  - intros k v. unfold parse_kv. destruct (fs_read_text fs p) as [text|e].
    + rewrite dict_lookup. intros Hkv.
      apply last_value_elem, findall_sound in Hkv
        as (_ & _ & _ & _ & ? & ? & _ & ?).
      by rewrite <- !quote_free_spec.
    + by rewrite lookup_empty.
Qed.

(** ** [status] and the rate *)

Lemma Qltb_lt x y : Qltb x y = true <-> (x < y)%Q.
Proof. unfold Qltb, Qlt. apply Z.ltb_lt. Qed.

Lemma Qltb_ge x y : Qltb x y = false <-> (y <= x)%Q.
Proof. unfold Qltb, Qle. apply Z.ltb_ge. Qed.

Lemma DOWNLOADING_not_PAUSED : DOWNLOADING <> PAUSED.
Proof. discriminate. Qed.

(** C3. [status] answers DOWNLOADING exactly for the rates above 50,000 and
    PAUSED for all others; 50,000 itself is PAUSED and 50,001 is DOWNLOADING. *)
Theorem status_threshold (speed : Q) :
  (status speed = DOWNLOADING <-> (50000 < speed)%Q) /\
  (status speed = PAUSED <-> ~ (50000 < speed)%Q) /\
  status 50000 = PAUSED /\
  status 50001 = DOWNLOADING.
Proof.
  unfold status. split_and!; [| |done|done].
  - destruct (Qltb 50000 speed) eqn:Hlt.
    + by apply Qltb_lt in Hlt.
    + apply Qltb_ge in Hlt. split; [by intros ?%eq_sym%DOWNLOADING_not_PAUSED|].
      intros Hgt. by apply Qlt_not_le in Hgt.
  - destruct (Qltb 50000 speed) eqn:Hlt.
    + apply Qltb_lt in Hlt. split; [by intros ?%DOWNLOADING_not_PAUSED|done].
    + apply Qltb_ge in Hlt. split; [|done]. intros _. by apply Qle_not_lt.
Qed.

Lemma max_int_max a b : max_int a b = Z.max a b.
Proof. unfold max_int. destruct (Z.ltb_spec a b); lia. Qed.

Lemma max_float_max a b : (max_float a b == Qmax a b)%Q.
Proof.
  unfold max_float. destruct (Qltb a b) eqn:Hlt.
  - apply Qltb_lt, Qlt_le_weak in Hlt. symmetry. by apply Q.max_r.
  - apply Qltb_ge in Hlt. symmetry. by apply Q.max_l.
Qed.

Lemma max_float_floor a b : (a <= max_float a b)%Q.
Proof.
  unfold max_float. destruct (Qltb a b) eqn:Hlt.
  - by apply Qltb_lt, Qlt_le_weak in Hlt.
  - apply Qle_refl.
Qed.

Lemma epsilon_pos : (0 < epsilon)%Q.
Proof. reflexivity. Qed.

(** C4. The rate of [main] is [max(0, size - last_size)] over
    [max(epsilon, t - last_time)] with [epsilon] the positive constant 1e-6:
    the divisor is at least [epsilon], so positive whatever the two times
    are, the rate is never negative, and it is zero when the size did not
    grow; from 1000 bytes at time 0 to 500 bytes at time 1 the rate is zero
    and the state PAUSED. *)
Theorem main_speed_formula (last_size : Z) (last_time : Q) (size : Z) (t : Q) :
  (main_speed last_size last_time size t ==
     inject_Z (Z.max 0 (size - last_size)) / Qmax epsilon (t - last_time))%Q /\
  (0 < epsilon)%Q /\
  (epsilon <= max_float epsilon (t - last_time))%Q /\
  (0 <= main_speed last_size last_time size t)%Q /\
  ((size <= last_size)%Z -> (main_speed last_size last_time size t == 0)%Q) /\
  (main_speed 1000 0 500 1 == 0)%Q /\
  status (main_speed 1000 0 500 1) = PAUSED.
Proof.
  pose proof (max_float_floor epsilon (t - last_time)) as Hfloor.
  assert (0 < max_float epsilon (t - last_time))%Q as Hpos
    by (eapply Qlt_le_trans; [apply epsilon_pos|done]).
  unfold main_speed. split_and!; [|done|done| | |done|done].
  - by rewrite max_int_max, max_float_max.
  - apply Qle_shift_div_l; [done|]. rewrite Qmult_0_l.
    rewrite max_int_max. change 0%Q with (inject_Z 0).
    rewrite <- Zle_Qle. lia.
  - intros Hle. rewrite max_int_max, Z.max_l by lia.
    unfold Qdiv. apply Qmult_0_l.
Qed.

(** Ten mebibytes in ten seconds: 1,048,576 bytes a second, DOWNLOADING. *)
Example main_speed_ten_mebibytes :
  (main_speed 0 0 10485760 10 == 1048576)%Q /\
  status (main_speed 0 0 10485760 10) = DOWNLOADING.
Proof. split; reflexivity. Qed.

(** ** [find_active_download] *)

Lemma is_dir_stat fs d :
  is_dir fs d = true -> exists st, fs_stat fs d = Ok st /\ st_isdir st = true.
Proof. unfold is_dir. destruct (fs_stat fs d) as [st|]; [by exists st|done]. Qed.

(** On a disk at rest the body of the inner loop returns: [d.stat()] is
    called on a path [d.is_dir()] has just found. *)
Lemma consider_ok fs droot latest n :
  consider fs droot latest n =
    Ok (if is_dir fs (droot </> n) && isdigit n
        then pick fs latest (n, droot </> n) else latest).
Proof.
  unfold consider. destruct (is_dir fs (droot </> n)) eqn:Hdir; [|done].
  destruct (isdigit n); [|done]. simpl.
  apply is_dir_stat in Hdir as (st & Hst & _).
  unfold pick, mtime_of. simpl. rewrite Hst. simpl.
  destruct latest as [[[m ?] ?]|]; [|done]. by destruct (Qltb m (st_mtime st)).
Qed.

Lemma foldM_consider fs droot names latest :
  foldM (consider fs droot) latest names =
    Ok (foldl (pick fs) latest (digit_subdirs fs droot names)).
Proof.
  revert latest. induction names as [|n names IH]; intros latest; [done|].
  simpl. rewrite consider_ok. simpl. rewrite IH. unfold digit_subdirs. simpl.
  by destruct (is_dir fs (droot </> n) && isdigit n).
Qed.

Lemma scan_library_ok fs latest lib :
  listable fs lib ->
  scan_library fs latest lib = Ok (foldl (pick fs) latest (download_dirs fs lib)).
Proof.
  unfold listable, scan_library, download_dirs.
  destruct (exists_ fs (downloading lib)); [|done]. simpl.
  intros [names ->]; [done|]. simpl. apply foldM_consider.
Qed.

Lemma foldM_scan_library fs libs latest :
  Forall (listable fs) libs ->
  foldM (scan_library fs) latest libs =
    Ok (foldl (pick fs) latest (candidates fs libs)).
Proof.
  intros Hlibs. revert latest.
  induction Hlibs as [|lib libs Hlib _ IH]; intros latest; [done|].
  simpl. rewrite scan_library_ok by done. simpl.
  unfold candidates in *. simpl. by rewrite foldl_app, IH.
Qed.

Lemma pick_first_newest fs cands latest c :
  holds_first_newest fs cands latest ->
  holds_first_newest fs (cands ++ [c]) (pick fs latest c).
Proof.
  destruct c as [n d]. destruct latest as [[[m n0] d0]|]; simpl.
  - intros [-> (before & after & -> & Hbefore & Hafter)].
    destruct (Qltb (mtime_of fs d0) (mtime_of fs d)) eqn:Hlt; simpl.
    + apply Qltb_lt in Hlt. split; [done|].
      exists (before ++ (n0, d0) :: after), []. split_and!; [done| |done].
      rewrite Forall_app, Forall_cons. split_and!; [|done|].
      * eapply Forall_impl; [exact Hbefore|]. intros c Hc. simpl in *.
        eapply Qlt_trans; [exact Hc|exact Hlt].
      * eapply Forall_impl; [exact Hafter|]. intros c Hc. simpl in *.
        eapply Qle_lt_trans; [exact Hc|exact Hlt].
    + apply Qltb_ge in Hlt. split; [done|].
      exists before, (after ++ [(n, d)]). split_and!; [by list_norm|done|].
      rewrite Forall_app, Forall_singleton. done.
  - intros ->. split; [done|]. by exists [], [].
Qed.

Lemma foldl_pick_first_newest fs cands latest more :
  holds_first_newest fs cands latest ->
  holds_first_newest fs (cands ++ more) (foldl (pick fs) latest more).
Proof.
  revert cands latest. induction more as [|c more IH]; intros cands latest H.
  - by rewrite app_nil_r.
  - simpl. replace (cands ++ c :: more) with ((cands ++ [c]) ++ more) by by list_norm.
    by apply IH, pick_first_newest.
Qed.

Lemma digit_subdirs_spec fs droot names n d :
  (n, d) ∈ digit_subdirs fs droot names <->
  n ∈ names /\ d = droot </> n /\ is_dir fs d = true /\ isdigit n = true.
Proof.
  unfold digit_subdirs. rewrite list_elem_of_omap. split.
  - intros (n' & Hin & H).
    destruct (is_dir fs (droot </> n')) eqn:Hdir; [|done].
    destruct (isdigit n') eqn:Hdig; [|done]. simpl in H. by injection H as <- <-.
  - intros (Hin & -> & Hdir & Hdig). exists n. by rewrite Hdir, Hdig.
Qed.

Lemma candidates_spec fs libs n d :
  (n, d) ∈ candidates fs libs <->
  exists lib names,
    lib ∈ libs /\ exists_ fs (downloading lib) = true /\
    fs_iterdir fs (downloading lib) = Ok names /\
    n ∈ names /\ d = downloading lib </> n /\
    is_dir fs d = true /\ isdigit n = true.
Proof.
  unfold candidates. rewrite list_elem_of_In, in_flat_map. split.
  - intros (lib & Hlib & Hin). exists lib.
    apply list_elem_of_In in Hlib, Hin. unfold download_dirs in Hin.
    destruct (exists_ fs (downloading lib)); [|by apply elem_of_nil in Hin].
    destruct (fs_iterdir fs (downloading lib)) as [names|];
      [|by apply elem_of_nil in Hin].
    exists names. by apply digit_subdirs_spec in Hin as (? & ? & ? & ?).
  - intros (lib & names & Hlib & Hex & Hiter & H).
    exists lib. rewrite <- !list_elem_of_In. split; [done|].
    unfold download_dirs. rewrite Hex, Hiter. by apply digit_subdirs_spec.
Qed.

Lemma first_newest_max fs cands n d c :
  first_newest fs cands n d -> c ∈ cands ->
  (mtime_of fs c.2 <= mtime_of fs d)%Q.
Proof.
  intros (before & after & -> & Hbefore & Hafter).
  rewrite elem_of_app, elem_of_cons, !Forall_forall in *.
  intros [Hc|[->|Hc]].
  - by apply Qlt_le_weak, Hbefore.
  - apply Qle_refl.
  - by apply Hafter.
Qed.

Lemma first_newest_elem fs cands n d : first_newest fs cands n d -> (n, d) ∈ cands.
Proof. intros (before & after & -> & _). set_solver. Qed.


Lemma selection_listable : Forall (listable selection_fs) [py "L"].
Proof.
  apply Forall_singleton. intros _. eexists. vm_compute. reflexivity.
Qed.



(** An invariant of a loop holds of its result. *)
Lemma foldM_invariant {A B} (P : B -> Prop) (f : B -> A -> result B) l b b' :
  (forall b a b', P b -> f b a = Ok b' -> P b') ->
  P b -> foldM f b l = Ok b' -> P b'.
Proof.
  intros Hstep. revert b. induction l as [|a l IH]; intros b Hb; simpl.
  - by intros [= <-].
  - destruct (f b a) as [b1|] eqn:Hf; [|done]. simpl. eauto.
Qed.

(** The name the detector returns satisfies [isdigit]; it is not empty. *)
Lemma find_active_download_isdigit fs libs name d :
  find_active_download fs libs = Ok (Some (name, d)) -> isdigit name = true.
Proof.
  unfold find_active_download.
  destruct (foldM (scan_library fs) None libs) as [latest|] eqn:Hfold; [|done].
  simpl. intros Hlatest.
  assert (digit_named latest) as HP.
  { eapply (foldM_invariant digit_named _ libs None); [|exact I|exact Hfold].
    intros b lib b' Hb. unfold scan_library.
    destruct (negb _); [by intros [= <-]|].
    destruct (fs_iterdir fs _) as [names|]; [|done]. simpl.
    apply foldM_invariant; [|done].
    clear. intros b n b' Hb. rewrite consider_ok. intros [= <-].
    destruct (is_dir fs _); [|done]. simpl.
    destruct (isdigit n) eqn:Hn; [|done].
    unfold pick. destruct b as [[[m ?] ?]|]; [|done].
    by destruct (Qltb m _). }
  destruct latest as [[[m n] d']|]; [|done].
  injection Hlatest as -> ->. exact HP.
Qed.

(** ** The loop of [main] *)

Lemma tick_none libs fs t s :
  find_active_download fs libs = Ok None ->
  tick libs fs t s = Ok (NoActiveDownloads, no_sample).
Proof. unfold tick. by intros ->. Qed.

Lemma tick_active libs fs t s appid p size :
  find_active_download fs libs = Ok (Some (appid, p)) ->
  dir_size fs p = Ok size ->
  tick libs fs t s =
    match last_size s, last_time s with
    | None, _ =>
        Ok (Report (game_name fs appid libs) (status 0) 0%Q,
            {| last_size := Some size; last_time := Some t |})
    | Some ls, Some lt =>
        Ok (Report (game_name fs appid libs) (status (main_speed ls lt size t))
              (main_speed ls lt size t),
            {| last_size := Some size; last_time := Some t |})
    | Some _, None => Raise TypeError
    end.
Proof.
  intros Hactive Hsize. unfold tick. rewrite Hactive. simpl.
  apply find_active_download_isdigit in Hactive.
  destruct appid as [|c appid]; [done|]. rewrite Hsize. simpl.
  destruct (last_size s), (last_time s); done.
Qed.

(** After an iteration both variables hold a value or neither does. *)
Lemma tick_sample libs fs t s l s' :
  tick libs fs t s = Ok (l, s') ->
  match find_active_download fs libs with
  | Ok (Some (appid, p)) =>
      exists size, dir_size fs p = Ok size /\
                   s' = {| last_size := Some size; last_time := Some t |}
  | Ok None => l = NoActiveDownloads /\ s' = no_sample
  | Raise _ => False
  end.
Proof.
  destruct (find_active_download fs libs) as [[[appid p]|]|] eqn:Hactive.
  - destruct (dir_size fs p) as [size|] eqn:Hsize.
    + rewrite (tick_active _ _ _ _ _ _ _ Hactive Hsize).
      exists size. split; [done|].
      destruct (last_size s), (last_time s); congruence.
    + unfold tick. rewrite Hactive. simpl.
      apply find_active_download_isdigit in Hactive.
      destruct appid; [done|]. by rewrite Hsize.
  - rewrite tick_none by done. by intros [= <- <-].
  - unfold tick. by rewrite Hactive.
Qed.




(** ** [game_name] *)

Lemma Live_game_name_skip d appid before libs :
  Forall (fun l => Live.d_exists d (manifest l appid) = Ok false) before ->
  Live.game_name d appid (before ++ libs) = Live.game_name d appid libs.
Proof.
  induction 1 as [|l before Hl _ IH]; [done|].
  cbn [app Live.game_name]. by rewrite Hl.
Qed.

(** On a disk at rest [Live.game_name] is [game_name]. *)
Lemma Live_game_name_observe fs appid libs :
  Live.game_name (Live.observe fs) appid libs = Ok (game_name fs appid libs).
Proof.
  induction libs as [|lib libs IH]; [done|].
  cbn [Live.game_name game_name]. simpl.
  destruct (exists_ fs (manifest lib appid)); [done|exact IH].
Qed.




Example game_name_catalog :
  game_name catalog_fs (py "10") [py "L"; py "M"] = py "Full" /\
  game_name catalog_fs (py "20") [py "L"; py "M"] = py "AppID 20".
Proof. split; vm_compute; reflexivity. Qed.

(** ** [dir_size] *)

(** Induction on directory trees, with the hypothesis for every subtree. *)
Lemma dirtree_nested_ind (P : dirtree -> Prop) :
  (forall files subdirs, Forall (fun nt => P nt.2) subdirs -> P (DirNode files subdirs)) ->
  forall t, P t.
Proof.
  intros Hnode. fix IH 1. intros [files subdirs]. apply Hnode.
  induction subdirs as [|[n t] subdirs IHsubdirs]; constructor.
  - apply IH.
  - exact IHsubdirs.
Qed.

Lemma walk_node top files subdirs :
  walk top (DirNode files subdirs) =
    (top, map fst subdirs, files) ::
    flat_map (fun nt => walk (top </> nt.1) nt.2) subdirs.
Proof.
  simpl. f_equal. induction subdirs as [|[n t] subdirs IH]; [done|].
  simpl. by rewrite IH.
Qed.

Lemma tree_size_node fs top files subdirs :
  tree_size fs top (DirNode files subdirs) =
    sumZ (map (fun x => file_contribution fs (Path top </> x)) files) +
    sumZ (map (fun nt => tree_size fs (top </> nt.1) nt.2) subdirs).
Proof.
  simpl. f_equal. induction subdirs as [|[n t] subdirs IH]; [done|].
  simpl. by rewrite IH.
Qed.

Lemma sumZ_app l1 l2 : sumZ (l1 ++ l2) = sumZ l1 + sumZ l2.
Proof. induction l1 as [|x l1 IH]; simpl; [done|]. rewrite IH. lia. Qed.

Lemma files_of_app l1 l2 : files_of (l1 ++ l2) = files_of l1 ++ files_of l2.
Proof. unfold files_of. apply flat_map_app. Qed.

(** The sum over the flat walk is the sum over the tree. *)
Lemma walk_tree_size fs t :
  forall top,
    sumZ (map (file_contribution fs) (files_of (walk top t))) = tree_size fs top t.
Proof.
  induction t as [files subdirs IH] using dirtree_nested_ind. intros top.
  rewrite walk_node, tree_size_node.
  change (files_of (?x :: ?l)) with (map (fun y => Path (x.1.1) </> y) (x.2) ++ files_of l).
  rewrite map_app, sumZ_app, map_map. simpl. f_equal.
  induction IH as [|[n t] subdirs Hnt _ IHsubdirs]; [done|].
  simpl. rewrite files_of_app, map_app, sumZ_app.
  by rewrite Hnt, IHsubdirs.
Qed.

(** On a disk at rest the loop of [dir_size] returns: [f.stat()] is asked
    what [f.exists()] has just been answered. *)
Lemma dir_size_loop fs acc files :
  foldM (fun acc f =>
           if exists_ fs f then st ← fs_stat fs f; mret (acc + st_size st)
           else mret acc) acc files =
    Ok (acc + sumZ (map (file_contribution fs) files)).
Proof.
  revert acc. induction files as [|f files IH]; intros acc; simpl.
  - f_equal. lia.
  - unfold exists_, file_contribution at 1.
    destruct (fs_stat fs f) as [st|]; simpl; rewrite IH; f_equal; lia.
Qed.

(** On a disk at rest [Live.dir_size] is [dir_size]. *)
Lemma Live_dir_size_observe fs p : Live.dir_size (Live.observe fs) p = dir_size fs p.
Proof. reflexivity. Qed.

(** C9, failing: the files [a] and [b] of a download directory are listed and
    both pass [f.exists()]; [b] is deleted before [f.stat()] is called on it,
    and [dir_size] raises the error of that call instead of skipping [b].
    Had [b] been deleted before its existence was tested, it would have been
    skipped. *)
Theorem dir_size_file_vanishes :
  Live.walked_files vanishing_disk (py "D") = [py "D" </> py "a"; py "D" </> py "b"] /\
  Live.d_exists vanishing_disk (py "D" </> py "b") = Ok true /\
  Live.d_stat vanishing_disk (py "D" </> py "b") = Raise OSError /\
  Live.dir_size vanishing_disk (py "D") = Raise OSError /\
  Live.dir_size vanished_disk (py "D") = Ok 100.
Proof. split_and!; vm_compute; reflexivity. Qed.

(** ** [get_libraries] *)

Lemma collect_loop fs acc pairs :
  foldl (fun libs (kv : str * str) =>
           let p := Path kv.2 in
           if exists_ fs p then libs ++ [p] else libs) acc pairs =
    acc ++ filter (fun p => exists_ fs p = true) (map (fun kv => Path kv.2) pairs).
Proof.
  revert acc. induction pairs as [|kv pairs IH]; intros acc; simpl.
  - by rewrite app_nil_r.
  - rewrite IH, filter_cons. destruct (exists_ fs (Path kv.2)) eqn:Hex.
    + rewrite decide_True by done. by list_norm.
    + by rewrite decide_False by done.
Qed.

Lemma get_libraries_read fs root text :
  exists_ fs (registry root) = true ->
  fs_read_text fs (registry root) = Ok text ->
  get_libraries fs root =
    Ok (elements (list_to_set (fs_resolve fs <$> listed_libraries fs root text) : gset path)).
Proof.
  intros Hex Hread. unfold get_libraries. rewrite Hex, Hread. simpl.
  by rewrite collect_loop.
Qed.

(** A missing registry leaves the root as the only library ... *)
Lemma get_libraries_missing fs root :
  exists_ fs (registry root) = false ->
  get_libraries fs root = Ok [fs_resolve fs root].
Proof.
  intros Hex. unfold get_libraries. rewrite Hex. simpl.
  by rewrite union_empty_r_L, elements_singleton.
Qed.

(** ... and so does a registry in which no pair is found. *)
Lemma get_libraries_no_pairs fs root text :
  exists_ fs (registry root) = true ->
  fs_read_text fs (registry root) = Ok text ->
  findall text = [] ->
  get_libraries fs root = Ok [fs_resolve fs root].
Proof.
  intros Hex Hread Hnone. rewrite (get_libraries_read _ _ _ Hex Hread).
  unfold listed_libraries. rewrite Hnone. simpl.
  by rewrite union_empty_r_L, elements_singleton.
Qed.

(** A registry that exists and cannot be read makes [get_libraries] raise. *)
Lemma get_libraries_unreadable fs root e :
  exists_ fs (registry root) = true ->
  fs_read_text fs (registry root) = Raise e ->
  get_libraries fs root = Raise e.
Proof. intros Hex Hread. unfold get_libraries. by rewrite Hex, Hread. Qed.

(** C2, at an installation whose registry exists and cannot be read:
    [get_libraries] raises the error of the read, where [parse_kv] on the
    same file returns the empty mapping. *)
Theorem get_libraries_unreadable_registry :
  exists_ locked_fs (registry (py "S")) = true /\
  fs_read_text locked_fs (registry (py "S")) = Raise OSError /\
  get_libraries locked_fs (py "S") = Raise OSError /\
  parse_kv locked_fs (registry (py "S")) = ∅.
Proof.
  assert (exists_ locked_fs (registry (py "S")) = true) as Hex
    by (vm_compute; reflexivity).
  assert (fs_read_text locked_fs (registry (py "S")) = Raise OSError) as Hread
    by reflexivity.
  split_and!; [done|done| |].
  - by apply get_libraries_unreadable.
  - unfold parse_kv. by rewrite Hread.
Qed.

Lemma filter_eq_absent (l : list path) (x : path) :
  x ∉ l -> filter (fun p => p = x) l = [].
Proof.
  induction l as [|y l IH]; [done|].
  intros [Hne Hl]%not_elem_of_cons. rewrite filter_cons.
  rewrite decide_False by (by intros ->). by apply IH.
Qed.

Lemma NoDup_filter_eq (l : list path) (x : path) :
  NoDup l -> x ∈ l -> length (filter (fun p => p = x) l) = 1%nat.
Proof.
  induction 1 as [|y l Hy Hl IH]; [by intros ?%elem_of_nil|].
  rewrite filter_cons. intros [->|Hx]%elem_of_cons.
  - rewrite decide_True by done. simpl. by rewrite filter_eq_absent.
  - rewrite decide_False by (by intros ->). by apply IH.
Qed.

(** C7. The list [get_libraries] returns has no duplicates; its entries are
    the canonical paths of the collected spellings -- the root and the
    registry values that exist --; two distinct spellings with the same
    canonical path account for exactly one entry. *)
Theorem get_libraries_dedup (fs : filesystem) (root : path) (libs : list path) :
  get_libraries fs root = Ok libs ->
  NoDup libs /\
  (forall p, p ∈ libs <->
     exists a, a ∈ collected fs root /\ p = fs_resolve fs a) /\
  (forall a b,
     a ∈ collected fs root -> b ∈ collected fs root ->
     a <> b -> fs_resolve fs a = fs_resolve fs b ->
     length (filter (fun p => p = fs_resolve fs a) libs) = 1%nat).
Proof.
  intros Hlibs.
  assert (libs = elements (list_to_set (fs_resolve fs <$> collected fs root) : gset path))
    as ->.
  { unfold collected. destruct (exists_ fs (registry root)) eqn:Hex.
    - destruct (fs_read_text fs (registry root)) as [text|e] eqn:Hread.
      + rewrite (get_libraries_read _ _ _ Hex Hread) in Hlibs. by injection Hlibs.
      + by rewrite (get_libraries_unreadable _ _ _ Hex Hread) in Hlibs.
    - rewrite (get_libraries_missing _ _ Hex) in Hlibs. injection Hlibs as <-.
      simpl. by rewrite union_empty_r_L, elements_singleton. }
  assert (forall p,
    p ∈ elements (list_to_set (fs_resolve fs <$> collected fs root) : gset path) <->
    exists a, a ∈ collected fs root /\ p = fs_resolve fs a) as Hmem.
  { intros p. rewrite elem_of_elements, elem_of_list_to_set, list_elem_of_fmap.
    split; intros (a & ? & ?); by exists a. }
  split_and!.
  - apply NoDup_elements.
  - exact Hmem.
  - intros a b Ha _ _ _. apply NoDup_filter_eq; [apply NoDup_elements|].
    apply Hmem. by exists a.
Qed.

Lemma get_libraries_dedup_witness :
  exists libs,
    get_libraries two_spellings_fs (py "S") = Ok libs /\
    collected two_spellings_fs (py "S") = [py "S"; py "D:\Games"; py "D:/Games"] /\
    length libs = 2%nat /\
    length (filter (fun p => p = py "D:\Games") libs) = 1%nat.
Proof.
  assert (get_libraries two_spellings_fs (py "S") =
          Ok (elements (list_to_set [py "S"; py "D:\Games"; py "D:\Games"] : gset path)))
    as Hlibs by (vm_compute; reflexivity).
  assert (collected two_spellings_fs (py "S") =
          [py "S"; py "D:\Games"; py "D:/Games"]) as Hcol
    by (vm_compute; reflexivity).
  eexists. split; [exact Hlibs|]. split; [exact Hcol|].
  split; [vm_compute; reflexivity|].
  destruct (get_libraries_dedup two_spellings_fs (py "S") _ Hlibs)
    as (_ & _ & Hone).
  apply (Hone (py "D:\Games") (py "D:/Games")).
  - rewrite Hcol. apply list_elem_of_further, list_elem_of_here.
  - rewrite Hcol. do 2 apply list_elem_of_further. apply list_elem_of_here.
  - discriminate.
  - reflexivity.
Defined.

(** * Further properties *)

(** ** The pattern, [findall] and [dict] *)

(** X1. [KV_RE] matches at the start of a text exactly when the text begins
    with a quoted non-empty key, white space and a quoted value, no quote
    inside the key or the value; the groups are the key and the value, and
    the match ends with the closing quote of the value. *)
Theorem KV_RE_match_spec (s key val rest : str) :
  KV_RE_match s = Some (key, val, rest) <->
  exists white,
    s = pair_text key white val ++ rest /\
    key <> [] /\ quote_free key = true /\
    blank white = true /\ quote_free val = true.
Proof.
  split.
  - apply KV_RE_match_inv.
  - intros (white & -> & ? & ? & ? & ?). by apply KV_RE_match_pair.
Qed.

Lemma quotes_absent (s : list N) :
  quote_free s = true -> filter (fun c => c = quote) s = [].
Proof.
  induction s as [|c s IH]; [done|].
  unfold quote_free. cbn [forallb].
  intros [Hc Hs]%andb_true_iff. rewrite filter_cons.
  unfold not_quote in Hc. apply negb_true_iff, N.eqb_neq in Hc.
  rewrite decide_False by done. by apply IH.
Qed.

Lemma quotes_pair_text (key white val rest : list N) :
  quote_free key = true -> blank white = true -> quote_free val = true ->
  length (filter (fun c => c = quote) (pair_text key white val ++ rest)) =
    (4 + length (filter (fun c => c = quote) rest))%nat.
Proof.
  intros Hkey Hwhite%blank_quote_free Hval. rewrite pair_text_app.
  repeat first [ rewrite filter_cons_True by done
               | rewrite filter_app, quotes_absent by done ].
  simpl. lia.
Qed.

(** X2. Every pair [findall] reports takes at least five characters of the
    text, four of them double quotes: there are at most a fifth as many pairs
    as characters and a quarter as many as quotes, and none in a text with
    fewer than four quotes. *)
Theorem findall_length (text : list N) :
  (5 * length (findall text) <= length text)%nat /\
  (4 * length (findall text) <= length (filter (fun c => c = quote) text))%nat.
Proof.
  remember (length text) as n eqn:Hn. revert text Hn.
  induction n as [n IH] using lt_wf_ind. intros text ->.
  rewrite findall_eq.
  destruct (KV_RE_match text) as [[[key val] rest]|] eqn:Hm.
  - pose proof (KV_RE_match_shorter _ _ _ _ Hm) as Hshort.
    apply KV_RE_match_inv in Hm as (white & -> & Hne & Hkey & Hwhite & Hval).
    destruct (IH _ Hshort rest eq_refl) as [Hlen Hquotes].
    rewrite quotes_pair_text by done.
    destruct key as [|c key]; [done|].
    unfold pair_text. simpl. rewrite !length_app. simpl.
    rewrite !length_app. simpl. rewrite !length_app. simpl. lia.
  - destruct text as [|c text]; [simpl; lia|].
    destruct (IH (length text) ltac:(simpl; lia) text eq_refl) as [Hlen Hquotes].
    rewrite filter_cons. destruct (decide (c = quote)); simpl; lia.
Qed.

Lemma dict_dom pairs : dom (dict pairs) = list_to_set pairs.*1.
Proof.
  apply set_eq. intros k.
  rewrite elem_of_dom, elem_of_list_to_set, dict_lookup.
  destruct (last_value k pairs) as [v|] eqn:Hk.
  - split; [intros _|by eexists].
    apply last_value_elem in Hk. apply list_elem_of_fmap. by exists (k, v).
  - split; [by intros [? ?]|]. intros Hin. by apply last_value_None in Hk.
Qed.

Lemma size_list_to_set_le (l : list (list N)) :
  (size (list_to_set l : gset (list N)) <= length l)%nat.
Proof.
  induction l as [|x l IH].
  - change (size (∅ : gset (list N)) <= 0)%nat. by rewrite size_empty.
  - change (size ({[x]} ∪ list_to_set l : gset (list N)) <= S (length l))%nat.
    rewrite size_union_alt, size_singleton.
    pose proof (subseteq_size (list_to_set l ∖ {[x]}) (list_to_set l : gset (list N))
                  (subseteq_difference_l _ _ _ (reflexivity _))).
    lia.
Qed.

(** X3. The keys of the mapping [parse_kv] reads from a file are exactly the
    keys of the pairs found in its text, and there are no more of them than
    pairs. *)
Theorem parse_kv_keys (fs : filesystem) (p : path) (text : str) :
  fs_read_text fs p = Ok text ->
  dom (parse_kv fs p) = list_to_set (findall text).*1 /\
  (size (parse_kv fs p) <= length (findall text))%nat.
Proof.
  intros Hread. rewrite (parse_kv_ok _ _ _ Hread). split; [apply dict_dom|].
  rewrite <- size_dom, dict_dom.
  etrans; [apply size_list_to_set_le|]. by rewrite length_fmap.
Qed.

Lemma parse_kv_keys_witness :
  fs_read_text manifest_fs (py "m.acf") = Ok (document [] manifest_items) /\
  dom (parse_kv manifest_fs (py "m.acf")) =
    list_to_set [py "appid"; py "name"; py "name"] /\
  (size (parse_kv manifest_fs (py "m.acf")) <= 3)%nat.
Proof.
  split; [reflexivity|].
  exact (parse_kv_keys manifest_fs (py "m.acf") (document [] manifest_items) eq_refl).
Defined.

(** ** [get_steam_path] *)

Lemma try_key_spec reg fs key p :
  try_key reg fs key = Some p <->
  exists k value,
    OpenKey reg key.1.1 key.1.2 = Some k /\
    QueryValueEx reg k key.2 = Some value /\
    p = Path value /\ exists_ fs p = true.
Proof.
  unfold try_key. split.
  - destruct (OpenKey reg _ _) as [k|] eqn:Hopen; [|done].
    destruct (QueryValueEx reg k _) as [value|] eqn:Hquery; [|done].
    destruct (exists_ fs (Path value)) eqn:Hex; [|done].
    intros [= <-]. by exists k, value.
  - intros (k & value & -> & -> & -> & ->). done.
Qed.

Lemma get_steam_path_from_found reg fs ks p :
  get_steam_path_from reg fs ks = SteamAt p ->
  exists key, key ∈ ks /\ try_key reg fs key = Some p.
Proof.
  induction ks as [|key ks IH]; simpl; [done|].
  destruct (try_key reg fs key) as [q|] eqn:Hkey.
  - intros [= <-]. exists key. split; [left|done].
  - intros (key' & ? & ?)%IH. exists key'. split; [by right|done].
Qed.

Lemma get_steam_path_from_not_found reg fs ks :
  get_steam_path_from reg fs ks = SteamNotFound <->
  forall key, key ∈ ks -> try_key reg fs key = None.
Proof.
  induction ks as [|key ks IH]; simpl.
  - split; [by intros _ key ?%elem_of_nil|done].
  - destruct (try_key reg fs key) as [q|] eqn:Hkey.
    + split; [done|]. intros H. specialize (H key ltac:(left)). congruence.
    + rewrite IH. split.
      * intros H key' [->|?]%elem_of_cons; [done|by apply H].
      * intros H key' ?. apply H. by right.
Qed.

(** X4. The path [get_steam_path] returns exists, and is the value of one of
    the two registry entries the program reads. *)
Theorem get_steam_path_exists (reg : winreg) (fs : filesystem) (p : path) :
  get_steam_path reg fs = SteamAt p ->
  exists_ fs p = true /\
  exists key k value,
    key ∈ keys /\ OpenKey reg key.1.1 key.1.2 = Some k /\
    QueryValueEx reg k key.2 = Some value /\ p = Path value.
Proof.
  intros (key & Hkey & Htry)%get_steam_path_from_found.
  apply try_key_spec in Htry as (k & value & ? & ? & ? & ?).
  split; [done|]. by exists key, k, value.
Qed.

Lemma get_steam_path_exists_witness :
  get_steam_path stale_user_registry steam_fs = SteamAt (py "C:\Steam") /\
  exists_ steam_fs (py "C:\Steam") = true.
Proof.
  assert (get_steam_path stale_user_registry steam_fs = SteamAt (py "C:\Steam"))
    as Hfound by (vm_compute; reflexivity).
  split; [exact Hfound|].
  exact (proj1 (get_steam_path_exists _ _ _ Hfound)).
Defined.

(** X5. [get_steam_path] raises [RuntimeError] exactly when each of the two
    registry entries fails in one of three ways: the key cannot be opened,
    the value cannot be read, or the path it names does not exist; no error
    of the registry reaches the caller.  The per-user entry has precedence:
    when it names an existing path that path is returned, whatever the
    machine entry says. *)
Theorem get_steam_path_order (reg : winreg) (fs : filesystem) :
  (get_steam_path reg fs = SteamNotFound <->
   forall key, key ∈ keys ->
     forall k value,
       OpenKey reg key.1.1 key.1.2 = Some k ->
       QueryValueEx reg k key.2 = Some value ->
       exists_ fs (Path value) = false) /\
  (forall k value,
     OpenKey reg HKEY_CURRENT_USER (py "Software\Valve\Steam") = Some k ->
     QueryValueEx reg k (py "SteamPath") = Some value ->
     exists_ fs (Path value) = true ->
     get_steam_path reg fs = SteamAt (Path value)).
Proof.
  split.
  - unfold get_steam_path. rewrite get_steam_path_from_not_found.
    split; intros H key Hkey.
    + intros k value Hopen Hquery.
      specialize (H key Hkey). unfold try_key in H. rewrite Hopen, Hquery in H.
      by destruct (exists_ fs (Path value)).
    + destruct (try_key reg fs key) as [p|] eqn:Htry; [|done].
      apply try_key_spec in Htry as (k & value & Hopen & Hquery & -> & Hex).
      by rewrite (H key Hkey k value Hopen Hquery) in Hex.
  - intros k value Hopen Hquery Hex.
    unfold get_steam_path, keys. cbn [get_steam_path_from].
    unfold try_key at 1. cbn [fst snd]. by rewrite Hopen, Hquery, Hex.
Qed.

(** ** [get_libraries], further *)

Lemma get_libraries_elements fs root libs :
  get_libraries fs root = Ok libs ->
  libs = elements (list_to_set (fs_resolve fs <$> collected fs root) : gset path).
Proof.
  intros Hlibs. unfold collected.
  destruct (exists_ fs (registry root)) eqn:Hex.
  - destruct (fs_read_text fs (registry root)) as [text|e] eqn:Hread.
    + rewrite (get_libraries_read _ _ _ Hex Hread) in Hlibs. by injection Hlibs.
    + by rewrite (get_libraries_unreadable _ _ _ Hex Hread) in Hlibs.
  - rewrite (get_libraries_missing _ _ Hex) in Hlibs. injection Hlibs as <-.
    change (list_to_set (fs_resolve fs <$> [root]) : gset path)
      with ({[fs_resolve fs root]} ∪ ∅ : gset path).
    by rewrite union_empty_r_L, elements_singleton.
Qed.

Lemma root_collected fs root : root ∈ collected fs root.
Proof.
  unfold collected, listed_libraries.
  destruct (exists_ fs (registry root)); [|left].
  destruct (fs_read_text fs (registry root)); left.
Qed.

(** X6. When [get_libraries] returns, the list holds the resolved root, so
    it is never empty, and it has no more entries than the root and the
    registry values that exist. *)
Theorem get_libraries_returned (fs : filesystem) (root : path) (libs : list path) :
  get_libraries fs root = Ok libs ->
  fs_resolve fs root ∈ libs /\
  (1 <= length libs <= length (collected fs root))%nat.
Proof.
  intros ->%get_libraries_elements.
  assert (fs_resolve fs root ∈
          elements (list_to_set (fs_resolve fs <$> collected fs root) : gset path))
    as Hroot.
  { rewrite elem_of_elements, elem_of_list_to_set, list_elem_of_fmap.
    exists root. split; [done|apply root_collected]. }
  split; [done|]. split.
  - destruct (elements _); [by apply elem_of_nil in Hroot|simpl; lia].
  - etrans; [apply size_list_to_set_le|]. by rewrite length_fmap.
Qed.

Lemma get_libraries_returned_witness :
  exists libs,
    get_libraries two_spellings_fs (py "S") = Ok libs /\
    py "S" ∈ libs /\ (1 <= length libs <= 3)%nat.
Proof.
  assert (get_libraries two_spellings_fs (py "S") =
          Ok (elements (list_to_set [py "S"; py "D:\Games"; py "D:\Games"] : gset path)))
    as Hlibs by (vm_compute; reflexivity).
  eexists. split; [exact Hlibs|].
  exact (get_libraries_returned two_spellings_fs (py "S") _ Hlibs).
Defined.

(** X7. Every registry value that names an existing path becomes a library,
    whatever its key: the resolved path is in the list.  In particular a pair
    with an empty value, whose path is the current directory. *)
Theorem get_libraries_any_value (fs : filesystem) (root : path) (text : str)
    (libs : list path) (k v : str) :
  exists_ fs (registry root) = true ->
  fs_read_text fs (registry root) = Ok text ->
  (k, v) ∈ findall text ->
  exists_ fs (Path v) = true ->
  get_libraries fs root = Ok libs ->
  fs_resolve fs (Path v) ∈ libs /\
  (v = [] -> fs_resolve fs (py ".") ∈ libs).
Proof.
  intros Hex Hread Hkv Hv ->%get_libraries_elements.
  assert (fs_resolve fs (Path v) ∈
          elements (list_to_set (fs_resolve fs <$> collected fs root) : gset path))
    as Hin.
  { rewrite elem_of_elements, elem_of_list_to_set, list_elem_of_fmap.
    exists (Path v). split; [done|].
    unfold collected, listed_libraries. rewrite Hex, Hread. right.
    apply list_elem_of_filter. split; [done|].
    apply list_elem_of_fmap. by exists (k, v). }
  split; [done|]. by intros ->.
Qed.

Lemma get_libraries_any_value_witness :
  exists libs,
    get_libraries label_fs (py "S") = Ok libs /\
    (py "label", []) ∈ findall (pyq "'libraryfolders' { '0' { 'path' 'D:\Games' 'label' '' } }") /\
    py "." ∈ libs.
Proof.
  assert (get_libraries label_fs (py "S") =
          Ok (elements (list_to_set [py "S"; py "D:\Games"; py "."] : gset path)))
    as Hlibs by (vm_compute; reflexivity).
  assert ((py "label", []) ∈
          findall (pyq "'libraryfolders' { '0' { 'path' 'D:\Games' 'label' '' } }"))
    as Hpair.
  { assert (findall (pyq "'libraryfolders' { '0' { 'path' 'D:\Games' 'label' '' } }") =
            [ (py "path", py "D:\Games"); (py "label", []) ]) as ->
      by (vm_compute; reflexivity).
    apply list_elem_of_further, list_elem_of_here. }
  eexists. split; [exact Hlibs|]. split; [exact Hpair|].
  destruct (get_libraries_any_value label_fs (py "S") _ _ (py "label") []
              eq_refl eq_refl Hpair eq_refl Hlibs) as [_ Hdot].
  by apply Hdot.
Defined.

(** ** [find_active_download], further *)

Lemma foldM_app {A B} (f : B -> A -> result B) b l1 l2 :
  foldM f b (l1 ++ l2) = b' ← foldM f b l1; foldM f b' l2.
Proof.
  revert b. induction l1 as [|a l1 IH]; intros b; simpl; [done|].
  destruct (f b a) as [b1|]; simpl; [apply IH|done].
Qed.

(** An invariant of a loop, its step proved for the elements of the list. *)
Lemma foldM_invariant_elem {A B} (P : B -> Prop) (f : B -> A -> result B) l b b' :
  (forall b a b', a ∈ l -> P b -> f b a = Ok b' -> P b') ->
  P b -> foldM f b l = Ok b' -> P b'.
Proof.
  revert b. induction l as [|a l IH]; intros b Hstep Hb; simpl.
  - by intros [= <-].
  - destruct (f b a) as [b1|] eqn:Hf; [|done]. simpl. apply IH.
    + intros b2 a2 b3 Ha2. apply Hstep. by right.
    + eapply Hstep; [left|done..].
Qed.

(** X8. Whatever [find_active_download] returns is an entry of the download
    directory of one of the libraries, is a directory, and has a name that
    satisfies [isdigit]; the name is not empty, and the path is the download
    directory joined with the name. *)
Theorem find_active_download_result (fs : filesystem) (libs : list path)
    (name : str) (d : path) :
  find_active_download fs libs = Ok (Some (name, d)) ->
  isdigit name = true /\ name <> [] /\
  exists lib names,
    lib ∈ libs /\ exists_ fs (downloading lib) = true /\
    fs_iterdir fs (downloading lib) = Ok names /\ name ∈ names /\
    d = downloading lib </> name /\ is_dir fs d = true.
Proof.
  unfold find_active_download.
  destruct (foldM (scan_library fs) None libs) as [latest|] eqn:Hfold; [|done].
  simpl. intros Hlatest.
  set (P := fun latest : option candidate =>
              match latest with
              | Some (_, n, d) =>
                  isdigit n = true /\
                  exists lib names,
                    lib ∈ libs /\ exists_ fs (downloading lib) = true /\
                    fs_iterdir fs (downloading lib) = Ok names /\ n ∈ names /\
                    d = downloading lib </> n /\ is_dir fs d = true
              | None => True
              end).
  assert (P latest) as HP.
  { eapply (foldM_invariant_elem P _ libs None); [|exact I|exact Hfold].
    intros b lib b' Hlib Hb. unfold scan_library.
    destruct (exists_ fs (downloading lib)) eqn:Hex; simpl; [|by intros [= <-]].
    destruct (fs_iterdir fs (downloading lib)) as [names|] eqn:Hiter; [|done].
    simpl. apply foldM_invariant_elem; [|done].
    intros b1 n b2 Hn Hb1. rewrite consider_ok. intros [= <-].
    destruct (is_dir fs (downloading lib </> n)) eqn:Hdir; [|done]. simpl.
    destruct (isdigit n) eqn:Hdigit; [|done].
    assert (P (Some (mtime_of fs (downloading lib </> n), n, downloading lib </> n)))
      as Hnew by (split; [done|]; by exists lib, names).
    unfold pick. simpl. destruct b1 as [[[m ?] ?]|]; [|done].
    by destruct (Qltb m _). }
  destruct latest as [[[m n] d']|]; [|done].
  injection Hlatest as -> ->. destruct HP as [Hdigit Hfrom].
  split; [done|]. split; [|done]. by intros ->.
Qed.

Lemma find_active_download_result_witness :
  find_active_download selection_fs [py "L"] =
    Ok (Some (py "20", downloading (py "L") </> py "20")) /\
  isdigit (py "20") = true /\
  is_dir selection_fs (downloading (py "L") </> py "20") = true.
Proof.
  assert (find_active_download selection_fs [py "L"] =
          Ok (Some (py "20", downloading (py "L") </> py "20"))) as Hactive
    by (vm_compute; reflexivity).
  split; [exact Hactive|].
  destruct (find_active_download_result _ _ _ _ Hactive)
    as (Hdigit & _ & lib & names & _ & _ & _ & _ & _ & Hdir).
  split; [exact Hdigit|exact Hdir].
Defined.

Lemma scan_library_raise fs latest lib e :
  exists_ fs (downloading lib) = true ->
  fs_iterdir fs (downloading lib) = Raise e ->
  scan_library fs latest lib = Raise e.
Proof. intros Hex Hiter. unfold scan_library. by rewrite Hex, Hiter. Qed.

Lemma scan_library_absent fs latest lib :
  exists_ fs (downloading lib) = false -> scan_library fs latest lib = Ok latest.
Proof. intros Hex. unfold scan_library. by rewrite Hex. Qed.

(** X9. A download directory that exists and cannot be listed makes
    [find_active_download] raise the error of the listing, also when another
    library has downloads: the library is not skipped. *)
Theorem find_active_download_unlistable (fs : filesystem)
    (before after : list path) (lib : path) (e : exn) :
  Forall (listable fs) before ->
  exists_ fs (downloading lib) = true ->
  fs_iterdir fs (downloading lib) = Raise e ->
  find_active_download fs (before ++ lib :: after) = Raise e.
Proof.
  intros Hbefore Hex Hiter. unfold find_active_download.
  rewrite foldM_app, foldM_scan_library by done.
  cbn [mbind result_bind foldM]. by rewrite (scan_library_raise _ _ _ e).
Qed.

Lemma unlistable_before : Forall (listable unlistable_fs) [py "L"].
Proof.
  apply Forall_singleton. intros _. eexists. vm_compute. reflexivity.
Qed.

Lemma find_active_download_unlistable_witness :
  candidates unlistable_fs [py "L"] = [ (py "10", downloading (py "L") </> py "10") ] /\
  find_active_download unlistable_fs [py "L"; py "M"] = Raise OSError.
Proof.
  split; [vm_compute; reflexivity|].
  exact (find_active_download_unlistable unlistable_fs [py "L"] [] (py "M") OSError
           unlistable_before eq_refl eq_refl).
Defined.

Lemma foldM_scan_library_skip fs libs latest :
  foldM (scan_library fs) latest libs =
  foldM (scan_library fs) latest
    (filter (fun lib => exists_ fs (downloading lib) = true) libs).
Proof.
  revert latest. induction libs as [|lib libs IH]; intros latest; [done|].
  rewrite filter_cons. destruct (exists_ fs (downloading lib)) eqn:Hex.
  - rewrite decide_True by done. cbn [foldM].
    destruct (scan_library fs latest lib); simpl; [apply IH|done].
  - rewrite decide_False by congruence. cbn [foldM].
    rewrite scan_library_absent by done. apply IH.
Qed.

(** X10. Libraries without a download directory play no part: the answer of
    [find_active_download], error included, is the one for the libraries
    that have the directory; with no such library it is nothing. *)
Theorem find_active_download_skips (fs : filesystem) (libs : list path) :
  find_active_download fs libs =
    find_active_download fs
      (filter (fun lib => exists_ fs (downloading lib) = true) libs) /\
  (Forall (fun lib => exists_ fs (downloading lib) = false) libs ->
   find_active_download fs libs = Ok None).
Proof.
  split.
  - unfold find_active_download. by rewrite foldM_scan_library_skip.
  - intros Hnone. unfold find_active_download.
    rewrite foldM_scan_library_skip.
    replace (filter _ libs) with (@nil path); [done|].
    symmetry. induction Hnone as [|lib libs Hlib _ IH]; [done|].
    rewrite filter_cons, decide_False by congruence. exact IH.
Qed.

(** ** [dir_size], further *)

Lemma dir_size_sum fs p :
  dir_size fs p = Ok (sumZ (map (file_contribution fs) (walked_files fs p))).
Proof. unfold dir_size. by rewrite dir_size_loop. Qed.

Lemma dir_size_tree fs p t :
  fs_walk_tree fs p = Some t -> dir_size fs p = Ok (tree_size fs p t).
Proof.
  intros Ht. rewrite dir_size_sum. unfold walked_files, os_walk. rewrite Ht.
  by rewrite walk_tree_size.
Qed.

Lemma Live_add_size d acc f :
  Live.add_size d acc f =
    match Live.d_exists d f with
    | Ok true => st ← Live.d_stat d f; mret (acc + st_size st)
    | Ok false => Ok acc
    | Raise e => Raise e
    end.
Proof. unfold Live.add_size. by destruct (Live.d_exists d f) as [[|]|]. Qed.

Lemma Live_dir_size_loop d files acc n :
  foldM (Live.add_size d) acc files = Ok n ->
  n = acc + sumZ (map (Live.contribution d) files).
Proof.
  revert acc. induction files as [|f files IH]; intros acc.
  - simpl. intros [= <-]. lia.
  - cbn [foldM]. rewrite Live_add_size.
    change (sumZ (map (Live.contribution d) (f :: files)))
      with (Live.contribution d f + sumZ (map (Live.contribution d) files)).
    unfold Live.contribution at 1.
    destruct (Live.d_exists d f) as [[|]|]; [| |discriminate].
    + destruct (Live.d_stat d f) as [st|]; [|discriminate].
      cbn [mbind result_bind mret result_ret]. intros ->%IH. lia.
    + cbn [mbind result_bind]. intros ->%IH. lia.
Qed.

(** X12. Whenever [dir_size] returns, what it returns is the sum, over the
    files [os.walk] listed below the path, nested directories included, of
    the size of each file whose existence test answered that it is there; a
    file whose test answered that it is gone counts for nothing, and the sum
    is not negative when no size is.  For a path that cannot be walked
    [dir_size] returns zero. *)
Theorem dir_size_when_returns (d : Live.disk) (p : path) :
  (forall n,
     Live.dir_size d p = Ok n ->
     n = sumZ (map (Live.contribution d) (Live.walked_files d p)) /\
     ((forall f st, Live.d_stat d f = Ok st -> 0 <= st_size st) -> 0 <= n)) /\
  (forall f, Live.d_exists d f = Ok false -> Live.contribution d f = 0) /\
  (Live.d_walk_tree d p = None -> Live.dir_size d p = Ok 0).
Proof.
  split_and!.
  - intros n ->%Live_dir_size_loop. split; [done|].
    intros Hsizes. apply Z.add_nonneg_nonneg; [done|].
    induction (Live.walked_files d p) as [|f files IH]; [done|]. simpl.
    apply Z.add_nonneg_nonneg; [|exact IH]. unfold Live.contribution.
    destruct (Live.d_exists d f) as [[|]|]; [|done..].
    destruct (Live.d_stat d f) as [st|] eqn:Hst; [by eapply Hsizes|done].
  - intros f Hf. unfold Live.contribution. by rewrite Hf.
  - intros Hnone. unfold Live.dir_size, Live.walked_files. by rewrite Hnone.
Qed.

Lemma dir_size_when_returns_witness :
  Live.dir_size (Live.observe nested_fs) (py "D") = Ok 123 /\
  Live.d_exists (Live.observe nested_fs) (py "D" </> py "gone") = Ok false.
Proof.
  assert (Live.dir_size (Live.observe nested_fs) (py "D") = Ok 123) as Hsize
    by (vm_compute; reflexivity).
  split; [exact Hsize|].
  destruct (dir_size_when_returns (Live.observe nested_fs) (py "D")) as (Hsum & _ & _).
  destruct (Hsum 123 Hsize) as [_ _]. reflexivity.
Defined.

Lemma prefix_joinpath (p top : path) (c : str) :
  p `prefix_of` top -> p `prefix_of` top </> c.
Proof. intros Hp. unfold joinpath. by apply prefix_app_r. Qed.

Lemma Path_nonempty (top : path) : top <> [] -> Path top = top.
Proof. by destruct top. Qed.

Lemma joinpath_nonempty (top : path) (c : str) : top </> c <> [].
Proof. unfold joinpath. by destruct top. Qed.

(** Every file of a walk lies under its top. *)
Lemma walk_under p t :
  forall top, p `prefix_of` top -> top <> [] ->
    Forall (fun f => p `prefix_of` f) (files_of (walk top t)).
Proof.
  induction t as [files subdirs IH] using dirtree_nested_ind.
  intros top Hp Htop. rewrite walk_node.
  change (files_of (?x :: ?l)) with (map (fun y => Path (x.1.1) </> y) (x.2) ++ files_of l).
  apply Forall_app. split.
  - apply Forall_forall. intros f (x & -> & _)%list_elem_of_fmap. simpl.
    rewrite Path_nonempty by done. by apply prefix_joinpath.
  - induction IH as [|[n t] subdirs Hnt _ IHsubdirs]; [constructor|].
    simpl. rewrite files_of_app. apply Forall_app. split; [|exact IHsubdirs].
    apply Hnt; [by apply prefix_joinpath|apply joinpath_nonempty].
Qed.


Lemma nested_elsewhere_stat f :
  py "D" `prefix_of` f -> fs_stat nested_fs f = fs_stat nested_fs_elsewhere f.
Proof.
  intros [k ->]. unfold nested_fs, nested_fs_elsewhere, snapshot. simpl.
  repeat (case_bool_decide; [done|]). done.
Qed.



Lemma nested_views_subdirs :
  Forall (fun nt => fs_walk_tree nested_views_fs (py "D" </> nt.1) = Some nt.2)
    [ (py "sub", DirNode [py "b"] [ (py "deep", DirNode [py "c"] []) ]) ].
Proof. apply Forall_singleton. reflexivity. Qed.


(** ** The rate and the state, further *)

Lemma max_float_pos x : (0 < max_float epsilon x)%Q.
Proof. eapply Qlt_le_trans; [apply epsilon_pos|apply max_float_floor]. Qed.

Lemma growth_nonneg x : (0 <= inject_Z (Z.max 0 x))%Q.
Proof. change 0%Q with (inject_Z 0). rewrite <- Zle_Qle. lia. Qed.

Lemma main_speed_eq ls lt size t :
  main_speed ls lt size t =
    (inject_Z (Z.max 0 (size - ls)) / max_float epsilon (t - lt))%Q.
Proof. unfold main_speed. by rewrite max_int_max. Qed.

Lemma per_epsilon x : (x / epsilon == x * 1000000)%Q.
Proof. unfold Qdiv. reflexivity. Qed.


Lemma status_DOWNLOADING speed : status speed = DOWNLOADING <-> (50000 < speed)%Q.
Proof.
  unfold status. destruct (Qltb 50000 speed) eqn:Hlt.
  - by apply Qltb_lt in Hlt.
  - apply Qltb_ge in Hlt. split; [by intros ?%eq_sym%DOWNLOADING_not_PAUSED|].
    intros Hgt. by apply Qlt_not_le in Hgt.
Qed.

(** X16. In terms of what is measured: an iteration with a previous sample
    reports DOWNLOADING exactly when the directory grew by more than 50,000
    bytes for each second elapsed, the elapsed time counted as at least the
    floor; a directory that did not grow is reported PAUSED. *)
Theorem status_growth (last_size : Z) (last_time : Q) (size : Z) (t : Q) :
  (status (main_speed last_size last_time size t) = DOWNLOADING <->
   (50000 * Qmax epsilon (t - last_time) < inject_Z (size - last_size))%Q) /\
  ((size <= last_size)%Z ->
   status (main_speed last_size last_time size t) = PAUSED).
Proof.
  assert (status (main_speed last_size last_time size t) = DOWNLOADING <->
          (50000 * Qmax epsilon (t - last_time) < inject_Z (size - last_size))%Q)
    as Hiff.
  { rewrite status_DOWNLOADING, main_speed_eq, <- max_float_max.
    pose proof (max_float_pos (t - last_time)) as Hpos.
    set (D := max_float epsilon (t - last_time)) in *.
    assert (0 < 50000 * D)%Q as Hpos'.
    { rewrite <- (Qmult_0_r 50000). by apply Qmult_lt_l. }
    split.
    - intros Hlt.
      assert (50000 * D < inject_Z (Z.max 0 (size - last_size)))%Q as Hmul.
      { apply (Qmult_lt_compat_r _ _ D) in Hlt; [|done].
        rewrite (Qmult_comm (_ / _)), Qmult_div_r in Hlt; [done|].
        intros Hzero. rewrite Hzero in Hpos. by apply Qlt_irrefl in Hpos. }
      destruct (Z.max_spec 0 (size - last_size)) as [[_ Hmax]|[_ Hmax]];
        rewrite Hmax in Hmul; [done|]. exfalso.
      apply (Qlt_irrefl 0). by eapply Qlt_trans.
    - intros Hlt. apply Qlt_shift_div_l; [done|].
      eapply Qlt_le_trans; [exact Hlt|].
      rewrite <- Zle_Qle. lia. }
  split; [exact Hiff|].
  intros Hle. unfold status.
  destruct (Qltb 50000 (main_speed last_size last_time size t)) eqn:Hlt; [|done].
  exfalso. apply Qltb_lt, status_DOWNLOADING, Hiff in Hlt.
  pose proof (max_float_pos (t - last_time)) as Hpos.
  rewrite max_float_max in Hpos.
  assert (inject_Z (size - last_size) <= 0)%Q as Hneg.
  { change 0%Q with (inject_Z 0). rewrite <- Zle_Qle. lia. }
  apply (Qlt_irrefl 0).
  eapply Qlt_trans; [|eapply Qlt_le_trans; [exact Hlt|exact Hneg]].
  rewrite <- (Qmult_0_r 50000). by apply Qmult_lt_l.
Qed.

(** ** The loop of [main], further *)

Lemma main_loop_length libs envs s lines :
  main_loop libs envs s = Ok lines -> length lines = length envs.
Proof.
  revert s lines. induction envs as [|env envs IH]; intros s lines; simpl.
  - by intros [= <-].
  - destruct (tick libs (env_fs env) (env_time env) s) as [[l s']|]; [|done].
    simpl. destruct (main_loop libs envs s') as [ls|] eqn:Hloop; [|done].
    simpl. intros [= <-]. simpl. f_equal. by eapply IH.
Qed.

(** X18. When the whole program runs to its end with observations, it ran on
    Windows, the root it monitored was found in the registry and exists, and
    it printed five lines, one for each iteration. *)
Theorem main_program_lines (platform : str) (reg : winreg) (fs0 : filesystem)
    (envs : nat -> tick_env) (lines : list line) :
  main_program platform reg fs0 envs = Monitored (Ok lines) ->
  platform = py "win32" /\
  length lines = 5%nat /\
  exists steam, get_steam_path reg fs0 = SteamAt steam /\ exists_ fs0 steam = true.
Proof.
  unfold main_program. case_bool_decide as Hwin; [|done].
  destruct (get_steam_path reg fs0) as [steam|] eqn:Hsteam; [|done].
  intros [= Hmain]. split; [done|]. split.
  - unfold main in Hmain.
    destruct (get_libraries fs0 steam) as [libs|]; [|done].
    cbn [mbind result_bind] in Hmain.
    apply main_loop_length in Hmain. by rewrite Hmain, length_map, length_seq.
  - exists steam. split; [done|].
    apply get_steam_path_from_found in Hsteam as (key & _ & Htry).
    by apply try_key_spec in Htry as (_ & _ & _ & _ & _ & ?).
Qed.

Lemma main_program_lines_witness :
  main_program (py "win32") stale_user_registry steam_fs (fun _ => idle_env) =
    Monitored (Ok [ NoActiveDownloads; NoActiveDownloads; NoActiveDownloads;
                    NoActiveDownloads; NoActiveDownloads ]) /\
  get_steam_path stale_user_registry steam_fs = SteamAt (py "C:\Steam").
Proof.
  assert (main_program (py "win32") stale_user_registry steam_fs (fun _ => idle_env) =
          Monitored (Ok [ NoActiveDownloads; NoActiveDownloads; NoActiveDownloads;
                          NoActiveDownloads; NoActiveDownloads ])) as Hrun
    by (vm_compute; reflexivity).
  split; [exact Hrun|].
  destruct (main_program_lines _ _ _ _ _ Hrun) as (_ & _ & steam & Hsteam & _).
  reflexivity.
Defined.

Lemma tick_fresh_line libs fs t name state speed s' :
  tick libs fs t no_sample = Ok (Report name state speed, s') ->
  state = PAUSED /\ speed = 0%Q.
Proof.
  destruct (find_active_download fs libs) as [[[appid p]|]|] eqn:Hactive.
  - rewrite (tick_active _ _ _ _ _ _ _ Hactive (dir_size_sum fs p)). simpl.
    by intros [= _ <- <- _].
  - by rewrite tick_none.
  - unfold tick. by rewrite Hactive.
Qed.

Lemma tick_idle_state libs fs t s s' :
  tick libs fs t s = Ok (NoActiveDownloads, s') -> s' = no_sample.
Proof.
  intros Htick. pose proof (tick_sample _ _ _ _ _ _ Htick) as Hsample.
  destruct (find_active_download fs libs) as [[[appid p]|]|] eqn:Hactive; [| |done].
  - rewrite (tick_active _ _ _ _ _ _ _ Hactive (dir_size_sum fs p)) in Htick.
    by destruct (last_size s), (last_time s).
  - by destruct Hsample.
Qed.

Lemma main_loop_after_idle_from libs envs s lines :
  main_loop libs envs s = Ok lines ->
  (s = no_sample ->
   forall name state speed rest,
     lines = Report name state speed :: rest -> state = PAUSED /\ speed = 0%Q) /\
  (forall i name state speed,
     lines !! i = Some NoActiveDownloads ->
     lines !! S i = Some (Report name state speed) ->
     state = PAUSED /\ speed = 0%Q).
Proof.
  revert s lines. induction envs as [|env envs IH]; intros s lines; simpl.
  - intros [= <-]. split; [by intros _ ? ? ? ?|by intros i ? ? ? ?].
  - destruct (tick libs (env_fs env) (env_time env) s) as [[l s']|] eqn:Htick;
      [|done].
    simpl. destruct (main_loop libs envs s') as [ls|] eqn:Hloop; [|done].
    simpl. intros [= <-]. destruct (IH _ _ Hloop) as [IHfirst IHnext]. split.
    + intros -> name state speed rest [= -> ->].
      by eapply tick_fresh_line.
    + intros [|i] name state speed; simpl.
      * intros [= ->] Hnext. apply tick_idle_state in Htick as ->.
        destruct ls as [|l1 ls]; [done|]. simpl in Hnext. injection Hnext as ->.
        by eapply IHfirst.
      * apply IHnext.
Qed.

(** X19. In the lines of a run, the first observation of a download after
    nothing was being downloaded -- at the start, or after a line saying so --
    is PAUSED with rate zero, however fast the download is. *)
Theorem main_loop_after_idle (libs : list path) (envs : list tick_env)
    (lines : list line) :
  main_loop libs envs no_sample = Ok lines ->
  (forall name state speed rest,
     lines = Report name state speed :: rest -> state = PAUSED /\ speed = 0%Q) /\
  (forall i name state speed,
     lines !! i = Some NoActiveDownloads ->
     lines !! S i = Some (Report name state speed) ->
     state = PAUSED /\ speed = 0%Q).
Proof.
  intros [Hfirst Hnext]%main_loop_after_idle_from. split; [by apply Hfirst|done].
Qed.

Lemma main_loop_after_idle_witness :
  main_loop [py "L"] [idle_env; switch_env2] no_sample =
    Ok [ NoActiveDownloads; Report (py "AppID 20") PAUSED 0%Q ].
Proof.
  destruct (main_loop [py "L"] [idle_env; switch_env2] no_sample) as [lines|] eqn:Hloop;
    [|by vm_compute in Hloop].
  pose proof (main_loop_after_idle _ _ _ Hloop) as [_ Hnext].
  assert (lines = [ NoActiveDownloads; Report (py "AppID 20") PAUSED 0%Q ]) as ->;
    [|reflexivity].
  assert (main_loop [py "L"] [idle_env; switch_env2] no_sample =
          Ok [ NoActiveDownloads; Report (py "AppID 20") PAUSED 0%Q ]) as Heq
    by (vm_compute; reflexivity).
  rewrite Heq in Hloop. by injection Hloop.
Defined.
